(** * jira-csv: field resolution, export loop and credential file

    A shallow embedding of [export_issues_with_specific_fields.py] and
    [credentials.py], with the properties of the field resolver, of the
    paginated export loop and of the credential file proved about it.

    Layout:
    - [Py]              the Python values, exceptions and built-ins used;
    - [Resolver]        the three extraction strategies, [get_field_values];
    - [MultipleChoice], [Cascading], [FieldValues]
                        the properties of the resolver;
    - [Flattener]       the flattener the resolver is given;
    - [Pipeline]        [export_issues]: its names and its page loop;
    - [Heap]            the resolver over a store of shared objects;
    - [Config]          [credentials.py] over a model of the ini file. *)

From Stdlib Require Import ZArith List String Ascii Bool Lia.
From Stdlib Require Import SpecFloat DecimalString.
From stdpp Require Import base list strings gmap.

Local Open Scope string_scope.
Local Open Scope list_scope.

(** ** Python values and built-ins *)

Module Py.

(** The exceptions the modelled code can raise. *)
Inductive exn : Type :=
| AttributeError   (* [x.get] on an object without [get]; [x.split] likewise *)
| TypeError        (* [sub in None]; [str.join] over a non-string item *)
| ValueError       (* configparser: invalid interpolation syntax *)
| SystemError      (* the interpreter's own: an address that holds no object *)
| KeyError         (* [d[key]] without the key *)
| NameError        (* a name bound neither in the module nor in builtins *)
| MissingSectionHeaderError   (* configparser: an option before any section *)
| DuplicateSectionError       (* configparser, strict: a section twice *)
| DuplicateOptionError        (* configparser, strict: an option twice *)
| ParsingError                (* configparser: lines that are no options *)
| InterpolationSyntaxError    (* configparser: a stray [%] in a value read *)
| InterpolationMissingOptionError  (* configparser: [%(name)s], no [name] *)
| InterpolationDepthError.    (* configparser: references nested too deep *)

(** The outcome of a Python call: a returned value or a raised exception. *)
Inductive result (A : Type) : Type :=
| Ok (a : A)
| Raise (e : exn).
Arguments Ok {A} a.
Arguments Raise {A} e.

#[global] Instance result_ret : MRet result := fun A a => Ok a.
#[global] Instance result_bind : MBind result := fun A B f m =>
  match m with
  | Ok a => f a
  | Raise e => Raise e
  end.
(** What [json.loads] builds, which is what [issue.raw] holds: [None],
    [bool], [int], [float], [str], [list], and [dict] with string keys.  A
    dict keeps its insertion order, so it is an association list; [dict_get]
    below reads the first binding of a key (a Python dict has one at most). *)
#[local] Unset Elimination Schemes.
Inductive value : Type :=
| VNone
| VBool (b : bool)
| VInt (z : Z)
| VFloat (f : spec_float)
| VStr (s : string)
| VList (items : list value)
| VDict (kvs : list (string * value)).
#[local] Set Elimination Schemes.

Definition dict : Type := list (string * value).

(** [key in d] / [d[key]] on the association list. *)
Fixpoint dict_lookup {A} (d : list (string * A)) (key : string) : option A :=
  match d with
  | [] => None
  | (k, v) :: d' => if String.eqb k key then Some v else dict_lookup d' key
  end.

(** [d.get(key)] on a dict: the value, or [None]. *)
Definition dict_get (d : dict) (key : string) : value :=
  match dict_lookup d key with
  | Some v => v
  | None => VNone
  end.

(** [d[key] = v]: replaces the value of an existing key in place, else
    appends the binding. *)
Fixpoint dict_set (d : dict) (key : string) (v : value) : dict :=
  match d with
  | [] => [(key, v)]
  | (k, w) :: d' =>
      if String.eqb k key then (k, v) :: d' else (k, w) :: dict_set d' key v
  end.

(** [x.get(key)] on an arbitrary object: only a dict has the method. *)
Definition py_get (x : value) (key : string) : result value :=
  match x with
  | VDict kvs => Ok (dict_get kvs key)
  | _ => Raise AttributeError
  end.

(** [bool(x)], the test of [if x:]. *)
Definition truthy (x : value) : bool :=
  match x with
  | VNone => false
  | VBool b => b
  | VInt z => negb (z =? 0)%Z
  | VFloat (S754_zero _) => false
  | VFloat _ => true
  | VStr s => negb (String.eqb s "")
  | VList items => match items with [] => false | _ => true end
  | VDict kvs => match kvs with [] => false | _ => true end
  end.

(** [sub in s] on strings: [sub] occurs in [s] as a substring. *)
Fixpoint contains (sub s : string) : bool :=
  String.prefix sub s ||
  match s with
  | EmptyString => false
  | String _ s' => contains sub s'
  end.

(** [s.split(c)] for a one-character separator: never empty, and empty
    strings are kept between adjacent separators. *)
Fixpoint split (c : ascii) (s : string) : list string :=
  match s with
  | EmptyString => [EmptyString]
  | String a s' =>
      if Ascii.eqb a c then EmptyString :: split c s'
      else match split c s' with
           | seg :: rest => String a seg :: rest
           | [] => [String a EmptyString]
           end
  end.

(** [sep.join(l)] on a list of strings. *)
Fixpoint join (sep : string) (l : list string) : string :=
  match l with
  | [] => ""
  | [s] => s
  | s :: l' => s +:+ sep +:+ join sep l'
  end.

(** The items of a list as strings; [str.join] raises [TypeError] at the
    first item that is not a [str]. *)
Fixpoint as_strings (l : list value) : result (list string) :=
  match l with
  | [] => Ok []
  | VStr s :: l' => ss ← as_strings l'; Ok (s :: ss)
  | _ :: _ => Raise TypeError
  end.

(** [sep.join(values)] on a list of arbitrary objects. *)
Definition str_join (sep : string) (values : list value) : result value :=
  ss ← as_strings values; Ok (VStr (join sep ss)).

(** A loop body applied to every element in order, stopping at the first
    exception: list comprehensions and [for] loops that only append. *)
Fixpoint for_each {A B} (f : A -> result B) (l : list A) : result (list B) :=
  match l with
  | [] => Ok []
  | x :: l' => y ← f x; ys ← for_each f l'; Ok (y :: ys)
  end.

End Py.

Import Py.

(** ** The field resolver: export_issues_with_specific_fields.py *)

Module Resolver.

(** The [for path_part in field_path.split('.')] loop of the cascading
    strategy, started at [nest]; it yields the list [values] the loop
    leaves behind.  There is no test on [nest] before [nest.get]. *)
Fixpoint cascading_loop (parts : list string) (nest : value)
  : result (list value) :=
  match parts with
  | [] => Ok []
  | path_part :: rest =>
      if contains "|" path_part then
        parent ← py_get nest "value";
        child_option ← py_get nest "child";
        if truthy child_option then
          child ← py_get child_option "value";
          Ok [parent; child]
        else Ok [parent]
      else
        nest' ← py_get nest path_part;
        cascading_loop rest nest'
  end.

Definition _get_value_for_cascading_select_field
    (field_path : string) (issue : value) : result value :=
  if negb (contains "|" field_path) then Ok (VStr "")
  else
    values ← cascading_loop (split "." field_path) issue;
    match values with
    | [_; _] => str_join "-" values
    | [v] => Ok v
    | _ => Ok (VStr "")
    end.

(** The loop of the multiple-choice strategy.  [None] is the early
    [return ''] inside the loop; [Some values] is the list [values] when
    the loop ends, by [break] or by running out of segments. *)
Fixpoint multiple_choice_loop (parts : list string) (nest : value)
  : result (option (list value)) :=
  match parts with
  | [] => Ok (Some [])
  | path_part :: rest =>
      match nest with
      | VList items =>
          values ← for_each (fun item => py_get item "value") items;
          Ok (Some values)
      | _ =>
          if truthy nest then
            nest' ← py_get nest path_part;
            multiple_choice_loop rest nest'
          else Ok None
      end
  end.

Definition _get_value_for_multiple_choice_field
    (field_path : string) (issue : value) : result value :=
  if negb (contains ".." field_path) then Ok (VStr "")
  else
    r ← multiple_choice_loop (split "." field_path) issue;
    match r with
    | None => Ok (VStr "")
    | Some values => str_join "|" values
    end.

Section GetFieldValues.

(** [flatten] of the flatten_json package and the table read from
    path_to_fields.json are not part of the repository's code: the
    resolver is stated for any flattener and any table of paths. *)
Variable flatten : dict -> dict.
Variable path_to_fields : list (string * string).

(** One turn of the [for field in fields] loop: the value appended to
    [filtered_field_values] for [field].  [path_to_fields.get(field)] is
    [None] for a name the table lacks, and the first test on it,
    ['..' in field_path], raises [TypeError] (None is not iterable). *)
Definition resolve (issue : dict) (issue_field_values : dict) (field : string)
  : result value :=
  match dict_lookup path_to_fields field with
  | None => Raise TypeError
  | Some field_path =>
      if contains ".." field_path
      then _get_value_for_multiple_choice_field field_path (VDict issue)
      else if contains "|" field_path
      then _get_value_for_cascading_select_field field_path (VDict issue)
      else Ok (dict_get issue_field_values field_path)
  end.

Definition get_field_values (issue : dict) (fields : list string)
  : result (list value) :=
  let issue_field_values := flatten issue in
  for_each (resolve issue issue_field_values) fields.

End GetFieldValues.

End Resolver.

(** ** Properties of the built-ins *)

Section BuiltinFacts.

Lemma for_each_Forall2 {A B} (f : A -> result B) (l : list A) (l' : list B) :
  for_each f l = Ok l' <-> Forall2 (fun x y => f x = Ok y) l l'.
Proof.
  revert l'. induction l as [|x l IH]; intros l'; simpl.
  - split.
    + intros [= <-]. constructor.
    + intros H. inversion H. reflexivity.
  - split.
    + destruct (f x) as [y|e] eqn:Hx; simpl; [|discriminate].
      destruct (for_each f l) as [ys|e] eqn:Hl; simpl; [|discriminate].
      intros [= <-]. constructor; [assumption|]. apply IH. reflexivity.
    + intros H. inversion H as [|? y ? ys Hx Hl]; subst.
      rewrite Hx. simpl. apply IH in Hl. rewrite Hl. reflexivity.
Qed.

Lemma for_each_length {A B} (f : A -> result B) (l : list A) (l' : list B) :
  for_each f l = Ok l' -> length l' = length l.
Proof.
  intros H. apply for_each_Forall2 in H.
  symmetry. eapply Forall2_length. exact H.
Qed.

Lemma as_strings_VStr (ss : list string) : as_strings (map VStr ss) = Ok ss.
Proof.
  induction ss as [|s ss IH]; simpl; [reflexivity|].
  rewrite IH. reflexivity.
Qed.

Lemma str_join_VStr (sep : string) (ss : list string) :
  str_join sep (map VStr ss) = Ok (VStr (join sep ss)).
Proof. unfold str_join. rewrite as_strings_VStr. reflexivity. Qed.

End BuiltinFacts.

(** ** The multiple-choice strategy *)

Module MultipleChoice.
Import Resolver.

(** The node reached from [nest] by reading the keys [parts] one after the
    other, every node read from being a non-empty object (so none of them
    is a sequence, and none is empty or absent). *)
Fixpoint descend (parts : list string) (nest : value) : option value :=
  match parts with
  | [] => Some nest
  | path_part :: rest =>
      match nest with
      | VDict ((_ :: _) as kvs) => descend rest (dict_get kvs path_part)
      | _ => None
      end
  end.

(** The issue of the example: two components, "UI" and "Backend". *)
Definition components_issue : value :=
  VDict [("fields", VDict [("components",
    VList [VDict [("value", VStr "UI")]; VDict [("value", VStr "Backend")]])])].

Lemma multi_loop_descend (pre rest : list string) (nest node : value) :
  descend pre nest = Some node ->
  multiple_choice_loop (pre ++ rest) nest = multiple_choice_loop rest node.
Proof.
  revert nest. induction pre as [|p pre IH]; intros nest H; simpl in *.
  - congruence.
  - destruct nest as [| | | | | |[|kv kvs]]; try discriminate.
    simpl. apply IH. exact H.
Qed.

Lemma multi_loop_at_list (part : string) (post : list string) (items : list value)
    (strs : list string) :
  Forall2 (fun item s => py_get item "value" = Ok (VStr s)) items strs ->
  multiple_choice_loop (part :: post) (VList items) = Ok (Some (map VStr strs)).
Proof.
  intros H. simpl.
  assert (Hv : for_each (fun item => py_get item "value") items
               = Ok (map VStr strs)).
  { apply for_each_Forall2. induction H; simpl; constructor; assumption. }
  rewrite Hv. reflexivity.
Qed.

Lemma multi_loop_at_falsy (part : string) (post : list string) (node : value) :
  truthy node = false ->
  (exists r, multiple_choice_loop (part :: post) node = Ok r /\
             (r = None \/ r = Some [])).
Proof.
  intros H. destruct node as [| | | | |items|kvs]; simpl in *;
    try (rewrite H); try (eexists; split; [reflexivity|]; auto; fail).
  destruct items; [|discriminate]. simpl. eexists; split; [reflexivity|]; auto.
Qed.

(** C1.  A path with the marker [..] is walked segment by segment from the
    issue; when the node reached before some segment is a sequence, the
    walk stops there and the result is the [value] attributes of its
    elements, in document order, joined by [|] (for elements that carry a
    string [value]); when that sequence is empty, or when the node reached
    before a segment is empty or absent, the result is the empty string. *)
Theorem multiple_choice_joins_values
    (field_path : string) (issue : value)
    (pre : list string) (part : string) (post : list string) (node : value) :
  contains ".." field_path = true ->
  split "." field_path = pre ++ part :: post ->
  descend pre issue = Some node ->
  (forall items strs,
      node = VList items ->
      Forall2 (fun item s => py_get item "value" = Ok (VStr s)) items strs ->
      _get_value_for_multiple_choice_field field_path issue
      = Ok (VStr (join "|" strs)))
  /\ (node = VList [] ->
      _get_value_for_multiple_choice_field field_path issue = Ok (VStr ""))
  /\ (truthy node = false ->
      _get_value_for_multiple_choice_field field_path issue = Ok (VStr "")).
Proof.
  intros Hmark Hsplit Hwalk.
  unfold _get_value_for_multiple_choice_field.
  rewrite Hmark, Hsplit. simpl negb. cbv iota.
  rewrite (multi_loop_descend pre (part :: post) issue node Hwalk).
  split; [|split].
  - intros items strs -> Hitems.
    rewrite (multi_loop_at_list part post items strs Hitems). simpl.
    apply str_join_VStr.
  - intros ->. reflexivity.
  - intros Hfalsy.
    destruct (multi_loop_at_falsy part post node Hfalsy) as [r [-> [-> | ->]]];
      reflexivity.
Qed.

(** The example of the specification:
    "fields.components..value" on the two-component issue is "UI|Backend". *)
Lemma multiple_choice_joins_values_witness :
  _get_value_for_multiple_choice_field "fields.components..value"
    components_issue = Ok (VStr "UI|Backend").
Proof.
  refine (proj1 (multiple_choice_joins_values
            "fields.components..value" components_issue
            ["fields"; "components"] "" ["value"]
            (VList [VDict [("value", VStr "UI")];
                    VDict [("value", VStr "Backend")]])
            _ _ _)
          _ ["UI"; "Backend"] _ _).
  - reflexivity.
  - reflexivity.
  - reflexivity.
  - reflexivity.
  - repeat constructor.
Defined.

End MultipleChoice.

(** ** The cascading strategy *)

Module Cascading.
Import Resolver.

(** The node reached from [nest] by [nest.get] through the keys [parts]:
    every node read from has to be an object. *)
Fixpoint get_path (parts : list string) (nest : value) : option value :=
  match parts with
  | [] => Some nest
  | path_part :: rest =>
      match nest with
      | VDict kvs => get_path rest (dict_get kvs path_part)
      | _ => None
      end
  end.

Lemma walk_to_marked_segment (pre rest : list string) (nest node : value) :
  Forall (fun p => contains "|" p = false) pre ->
  get_path pre nest = Some node ->
  cascading_loop (pre ++ rest) nest = cascading_loop rest node.
Proof.
  revert nest. induction pre as [|p pre IH]; intros nest Hpre H; simpl in *.
  - congruence.
  - inversion Hpre as [|? ? Hp Hpre']; subst. rewrite Hp.
    destruct nest; try discriminate. simpl. apply IH; assumption.
Qed.

(** The three outcomes of the marked segment, read off the node [kvs]
    reached there. *)
Lemma field_at_node (field_path : string) (issue : value)
    (pre : list string) (part : string) (post : list string)
    (kvs : list (string * value)) :
  contains "|" field_path = true ->
  split "." field_path = pre ++ part :: post ->
  Forall (fun p => contains "|" p = false) pre ->
  contains "|" part = true ->
  get_path pre issue = Some (VDict kvs) ->
  _get_value_for_cascading_select_field field_path issue =
    if truthy (dict_get kvs "child")
    then child ← py_get (dict_get kvs "child") "value";
         str_join "-" [dict_get kvs "value"; child]
    else Ok (dict_get kvs "value").
Proof.
  intros Hmark Hsplit Hpre Hpart Hwalk.
  unfold _get_value_for_cascading_select_field.
  rewrite Hmark, Hsplit. simpl negb. cbv iota.
  rewrite (walk_to_marked_segment pre (part :: post) issue _ Hpre Hwalk).
  simpl. rewrite Hpart. simpl.
  destruct (truthy (dict_get kvs "child")); [|reflexivity].
  destruct (py_get (dict_get kvs "child") "value"); reflexivity.
Qed.

(** X1.  Parent and child option both populated with strings: the result
    is "parent-child". *)
Lemma parent_and_child (field_path : string) (issue : value)
    (pre : list string) (part : string) (post : list string)
    (kvs ckvs : list (string * value)) (parent child : string) :
  contains "|" field_path = true ->
  split "." field_path = pre ++ part :: post ->
  Forall (fun p => contains "|" p = false) pre ->
  contains "|" part = true ->
  get_path pre issue = Some (VDict kvs) ->
  dict_get kvs "value" = VStr parent ->
  dict_get kvs "child" = VDict ckvs ->
  dict_lookup ckvs "value" = Some (VStr child) ->
  _get_value_for_cascading_select_field field_path issue
  = Ok (VStr (parent +:+ "-" +:+ child)).
Proof.
  intros Hmark Hsplit Hpre Hpart Hwalk Hp Hc Hcv.
  rewrite (field_at_node _ _ _ _ _ _ Hmark Hsplit Hpre Hpart Hwalk).
  rewrite Hc, Hp. simpl. unfold dict_get. rewrite Hcv.
  destruct ckvs; [discriminate|]. reflexivity.
Qed.

(** X2.  No child option (absent, [None] or empty): the result is the
    parent's [value] as it is, which is [None] when the node has no [value]
    either. *)
Lemma parent_only (field_path : string) (issue : value)
    (pre : list string) (part : string) (post : list string)
    (kvs : list (string * value)) :
  contains "|" field_path = true ->
  split "." field_path = pre ++ part :: post ->
  Forall (fun p => contains "|" p = false) pre ->
  contains "|" part = true ->
  get_path pre issue = Some (VDict kvs) ->
  truthy (dict_get kvs "child") = false ->
  _get_value_for_cascading_select_field field_path issue
  = Ok (dict_get kvs "value").
Proof.
  intros Hmark Hsplit Hpre Hpart Hwalk Hc.
  rewrite (field_at_node _ _ _ _ _ _ Hmark Hsplit Hpre Hpart Hwalk).
  rewrite Hc. reflexivity.
Qed.

(** A marker that occurs in a path occurs in one of its segments, as the
    separator is another character. *)
Lemma marker_in_some_segment (c sep : ascii) (s : string) :
  c <> sep ->
  contains (String c "") s = true ->
  Exists (fun p => contains (String c "") p = true) (split sep s).
Proof.
  intros Hne. induction s as [|a s IH]; simpl.
  - intros H. discriminate.
  - intros H.
    destruct (Ascii.eqb a sep) eqn:Ha.
    + apply Ascii.eqb_eq in Ha. subst a.
      destruct (ascii_dec c sep) as [->|_]; [congruence|].
      simpl in H. apply Exists_cons_tl. apply IH. exact H.
    + destruct (ascii_dec c a) as [->|Hca].
      * destruct (split sep s) as [|seg rest];
          apply Exists_cons_hd; simpl;
          destruct (ascii_dec a a); try congruence;
          [reflexivity | destruct seg; reflexivity].
      * simpl in H. specialize (IH H).
        destruct (split sep s) as [|seg rest]; [inversion IH|].
        inversion IH as [? ? Hseg|? ? Hrest]; subst.
        -- apply Exists_cons_hd. simpl.
           destruct (ascii_dec c a); [congruence|]. exact Hseg.
        -- apply Exists_cons_tl. exact Hrest.
Qed.

(** Once a segment carries the marker, the loop leaves one or two values
    behind, [None] included: never the empty list. *)
Lemma cascading_loop_values (parts : list string) (nest : value)
    (values : list value) :
  Exists (fun p => contains "|" p = true) parts ->
  cascading_loop parts nest = Ok values ->
  length values = 1 \/ length values = 2.
Proof.
  revert nest. induction parts as [|p parts IH]; intros nest Hex H.
  - inversion Hex.
  - simpl in H. destruct (contains "|" p) eqn:Hp.
    + destruct (py_get nest "value") as [v|]; simpl in H; [|discriminate].
      destruct (py_get nest "child") as [c|]; simpl in H; [|discriminate].
      destruct (truthy c).
      * destruct (py_get c "value"); simpl in H; [|discriminate].
        injection H as <-. right. reflexivity.
      * injection H as <-. left. reflexivity.
    + inversion Hex as [? ? Hp'|? ? Hex']; subst; [congruence|].
      destruct (py_get nest p) as [n|]; simpl in H; [|discriminate].
      exact (IH n Hex' H).
Qed.

(** So the final [else: return ''] of the cascading strategy is never
    taken for a path that carries the marker. *)
Lemma cascading_default_unreachable (field_path : string) (issue : value)
    (values : list value) :
  contains "|" field_path = true ->
  cascading_loop (split "." field_path) issue = Ok values ->
  values <> [].
Proof.
  intros Hmark H.
  assert (Hex : Exists (fun p => contains "|" p = true) (split "." field_path)).
  { apply marker_in_some_segment; [discriminate | exact Hmark]. }
  destruct (cascading_loop_values _ _ _ Hex H) as [Hl|Hl];
    intros ->; discriminate.
Qed.

(** The node of the specification's example under a field. *)
Definition region_east : value :=
  VDict [("fields", VDict [("customfield_1",
    VDict [("value", VStr "Region"); ("child", VDict [("value", VStr "East")])])])].

Example region_east_resolves :
  _get_value_for_cascading_select_field "fields.customfield_1.|" region_east
  = Ok (VStr "Region-East").
Proof. reflexivity. Qed.

(** A parent option whose child option carries no [value]. *)
Definition child_without_value : value :=
  VDict [("fields", VDict [("customfield_1",
    VDict [("value", VStr "Region"); ("child", VDict [("id", VStr "10")])])])].

(** A node with neither [value] nor [child]. *)
Definition neither_populated : value :=
  VDict [("fields", VDict [("customfield_1", VDict [("id", VStr "10")])])].

(** An issue whose cascading field is not set: Jira sends [null]. *)
Definition field_not_set : value :=
  VDict [("fields", VDict [("customfield_1", VNone)])].

(** C2.  At the segment with the marker the code appends [nest.get('value')]
    whether or not it is populated, and appends the child's [value] whenever
    the child option is non-empty.  A parent with a child option that has
    no [value] therefore reaches ['-'.join] with [None] in the list, which
    raises [TypeError] where the parent alone is expected; and a node with
    neither option yields [None] through the one-value branch, where the
    empty string of the final [else] is expected. *)
Theorem cascading_unpopulated_options :
  _get_value_for_cascading_select_field "fields.customfield_1.|"
    child_without_value = Raise TypeError
  /\ _get_value_for_cascading_select_field "fields.customfield_1.|"
       neither_populated = Ok VNone.
Proof. split; reflexivity. Qed.

(** X3.  An absent node met by the cascading walk, at the marked segment
    or before it, is read with [.get] all the same: [AttributeError]. *)
Lemma cascading_absent_node (field_path : string) (issue : value)
    (pre : list string) (part : string) (post : list string) :
  contains "|" field_path = true ->
  split "." field_path = pre ++ part :: post ->
  Forall (fun p => contains "|" p = false) pre ->
  get_path pre issue = Some VNone ->
  _get_value_for_cascading_select_field field_path issue
  = Raise AttributeError.
Proof.
  intros Hmark Hsplit Hpre Hwalk.
  unfold _get_value_for_cascading_select_field.
  rewrite Hmark, Hsplit. simpl negb. cbv iota.
  rewrite (walk_to_marked_segment pre (part :: post) issue _ Hpre Hwalk).
  simpl. destruct (contains "|" part); reflexivity.
Qed.

(** C4.  For a field that is not set in the issue, the cascading strategy
    raises [AttributeError]: its walk has no test on the node before
    [nest.get], the test the multiple-choice walk makes at every step, which
    gives the empty string on the same issue. *)
Theorem cascading_missing_node_raises :
  _get_value_for_cascading_select_field "fields.customfield_1.|"
    field_not_set = Raise AttributeError
  /\ _get_value_for_multiple_choice_field "fields.customfield_1..value"
       field_not_set = Ok (VStr "").
Proof. split; reflexivity. Qed.

End Cascading.

(** ** The flattener *)

Module Flattener.

(** An index of a sequence as a key segment: its decimal numeral. *)
Definition index_key (i : nat) : string :=
  NilZero.string_of_uint (Nat.to_uint i).

(** Modelled from the spec: [flatten] of the flatten_json package, which
    the repository imports and does not contain.  Section 4.2: for every
    leaf value of the nested structure there is an entry whose key is the
    dot-joined sequence of the keys and indices traversed to reach it and
    whose value is the leaf itself; objects and arrays are traversed alike,
    and nothing is flattened below a leaf.  [path] is the sequence traversed
    so far, [acc] the mapping built so far. *)
Fixpoint flatten_at (path : list string) (object_ : value) (acc : dict) : dict :=
  match object_ with
  | VDict kvs =>
      (fix members (kvs : list (string * value)) (acc : dict) : dict :=
         match kvs with
         | [] => acc
         | (k, v) :: kvs' => members kvs' (flatten_at (path ++ [k]) v acc)
         end) kvs acc
  | VList items =>
      (fix elements (i : nat) (items : list value) (acc : dict) : dict :=
         match items with
         | [] => acc
         | v :: items' =>
             elements (S i) items' (flatten_at (path ++ [index_key i]) v acc)
         end) 0 items acc
  | leaf => dict_set acc (join "." path) leaf
  end.

Definition flatten (document : dict) : dict :=
  flatten_at [] (VDict document) [].

End Flattener.

(** ** Dispatch and row assembly: get_field_values *)

Module FieldValues.
Import Resolver.

(** A table of paths with one field of each shape, and one path that
    carries both markers. *)
Definition path_table : list (string * string) :=
  [("key", "key");
   ("summary", "fields.summary");
   ("description", "fields.description");
   ("votes", "fields.votes.votes");
   ("components", "fields.components..value");
   ("City", "fields.customfield_1.|");
   ("labels", "fields.labels..|")].

Definition sample_issue : dict :=
  [("key", VStr "TT-1");
   ("fields", VDict
      [("summary", VStr "Login fails");
       ("votes", VDict [("votes", VInt 3)]);
       ("components", VList [VDict [("value", VStr "UI")];
                             VDict [("value", VStr "Backend")]]);
       ("customfield_1", VDict [("value", VStr "Region");
                                ("child", VDict [("value", VStr "East")])]);
       ("labels", VList [VDict [("value", VStr "a")]])])].

Example sample_issue_flattened :
  Flattener.flatten sample_issue =
  [("key", VStr "TT-1");
   ("fields.summary", VStr "Login fails");
   ("fields.votes.votes", VInt 3);
   ("fields.components.0.value", VStr "UI");
   ("fields.components.1.value", VStr "Backend");
   ("fields.customfield_1.value", VStr "Region");
   ("fields.customfield_1.child.value", VStr "East");
   ("fields.labels.0.value", VStr "a")].
Proof. reflexivity. Qed.

Example sample_issue_row :
  get_field_values Flattener.flatten path_table sample_issue
    ["components"; "key"; "City"; "summary"]
  = Ok [VStr "UI|Backend"; VStr "TT-1"; VStr "Region-East"; VStr "Login fails"].
Proof. reflexivity. Qed.

Lemma for_each_raises_at {A B} (f : A -> result B) (pre post : list A) (x : A)
    (ys : list B) (e : exn) :
  for_each f pre = Ok ys -> f x = Raise e ->
  for_each f (pre ++ x :: post) = Raise e.
Proof.
  revert ys. induction pre as [|a pre IH]; intros ys Hpre Hx; simpl in *.
  - rewrite Hx. reflexivity.
  - destruct (f a) as [y|e']; simpl in *; [|discriminate].
    destruct (for_each f pre) as [ys'|e'] eqn:Hp; simpl in *; [|discriminate].
    rewrite (IH ys' eq_refl Hx). reflexivity.
Qed.

Lemma for_each_raises_in {A B} (f : A -> result B) (l : list A) (x : A) (e : exn) :
  In x l -> f x = Raise e -> exists e', for_each f l = Raise e'.
Proof.
  induction l as [|a l IH]; intros Hin Hx; simpl in *; [contradiction|].
  destruct (f a) as [y|e'] eqn:Ha; simpl; [|eauto].
  destruct Hin as [->|Hin]; [congruence|].
  destruct (IH Hin Hx) as [e'' ->]. simpl. eauto.
Qed.

Lemma for_each_ext {A B} (f g : A -> result B) (l : list A) :
  (forall x, f x = g x) -> for_each f l = for_each g l.
Proof.
  intros H. induction l as [|a l IH]; simpl; [reflexivity|].
  rewrite H, IH. reflexivity.
Qed.

(** *** Scalar fields *)

(** C3, as amended.  For a path without markers the value appended to the
    row is the entry of the flattened document under the path itself, as
    it is (not turned into a string), and [None] when there is no such
    entry; no exception is raised. *)
Theorem scalar_returns_flattened_entry
    (path_to_fields : list (string * string)) (issue flat : dict)
    (field field_path : string) :
  dict_lookup path_to_fields field = Some field_path ->
  contains ".." field_path = false ->
  contains "|" field_path = false ->
  (forall v, dict_lookup flat field_path = Some v ->
             resolve path_to_fields issue flat field = Ok v)
  /\ (dict_lookup flat field_path = None ->
      resolve path_to_fields issue flat field = Ok VNone).
Proof.
  intros Hfield Hmulti Hcasc. unfold resolve, dict_get.
  rewrite Hfield, Hmulti, Hcasc.
  split.
  - intros v ->. reflexivity.
  - intros ->. reflexivity.
Qed.

Lemma scalar_returns_flattened_entry_witness :
  resolve path_table sample_issue (Flattener.flatten sample_issue) "votes"
  = Ok (VInt 3)
  /\ resolve path_table sample_issue (Flattener.flatten sample_issue)
       "description" = Ok VNone.
Proof.
  pose proof (scalar_returns_flattened_entry path_table sample_issue
                (Flattener.flatten sample_issue) "votes" "fields.votes.votes"
                eq_refl eq_refl eq_refl) as [Hpresent _].
  pose proof (scalar_returns_flattened_entry path_table sample_issue
                (Flattener.flatten sample_issue) "description"
                "fields.description" eq_refl eq_refl eq_refl) as [_ Habsent].
  split.
  - apply Hpresent. reflexivity.
  - apply Habsent. reflexivity.
Defined.

(** The claim as the specification has it fails on both counts: an absent
    key gives [None], not the empty string, and a number is returned as a
    number, not as its string form. *)
Lemma scalar_absent_is_not_empty_string :
  get_field_values Flattener.flatten path_table sample_issue ["description"]
  <> Ok [VStr ""]
  /\ get_field_values Flattener.flatten path_table sample_issue ["votes"]
     <> Ok [VStr "3"].
Proof. split; vm_compute; discriminate. Qed.

(** *** Unknown field names *)

(** The table of paths as the Python dict [json.load] returns for
    path_to_fields.json: every path is a [str]. *)
Definition table_dict (path_to_fields : list (string * string)) : value :=
  VDict (map (fun entry => (entry.1, VStr entry.2)) path_to_fields).

(** [sub in x] for a string [sub], the marker test of the loop: a
    substring test on a [str], membership in a list, key membership in a
    dict; [None] and the numbers are not iterable, which is a [TypeError]. *)
Definition py_in (sub : string) (x : value) : result bool :=
  match x with
  | VStr s => Ok (contains sub s)
  | VList items =>
      Ok (existsb (fun item => match item with
                               | VStr s => String.eqb s sub
                               | _ => false
                               end) items)
  | VDict kvs => Ok (match dict_lookup kvs sub with
                     | Some _ => true
                     | None => false
                     end)
  | VNone | VBool _ | VInt _ | VFloat _ => Raise TypeError
  end.

(** [path_to_fields.get(field)] returns in every case: the path of a name
    the table has, [None] for any other name. *)
Lemma table_get (path_to_fields : list (string * string)) (field : string) :
  py_get (table_dict path_to_fields) field
  = Ok (match dict_lookup path_to_fields field with
        | Some field_path => VStr field_path
        | None => VNone
        end).
Proof.
  unfold table_dict, py_get, dict_get. f_equal.
  induction path_to_fields as [|[k p] t IH]; simpl; [reflexivity|].
  destruct (String.eqb k field); [reflexivity | exact IH].
Qed.

(** The turn of the loop read statement by statement: the lookup, then the
    marker tests on what it returned.  [resolve] is this; the table holding
    strings only, what the lookup returns is a [str] or [None], and [None]
    does not get past the first test. *)
Lemma resolve_statements (path_to_fields : list (string * string))
    (issue flat : dict) (field : string) :
  resolve path_to_fields issue flat field
  = (field_path ← py_get (table_dict path_to_fields) field;
     multiple ← py_in ".." field_path;
     match field_path with
     | VStr path =>
         if (multiple : bool)
         then _get_value_for_multiple_choice_field path (VDict issue)
         else
           cascading ← py_in "|" field_path;
           if (cascading : bool)
           then _get_value_for_cascading_select_field path (VDict issue)
           else Ok (dict_get flat path)
     | _ => Raise TypeError
     end).
Proof.
  rewrite table_get. unfold resolve.
  destruct (dict_lookup path_to_fields field) as [path|]; simpl;
    [|reflexivity].
  destruct (contains ".." path); [reflexivity|].
  destruct (contains "|" path); reflexivity.
Qed.

(** C5, as amended.  For a requested name without an entry in the table
    of paths the lookup does not fail: it returns [None].  The error comes
    from the first marker test on that [None], a [TypeError], when the name
    is resolved for an issue; [get_field_values] then raises as well, with
    that very error when the names before it resolved, and returns no row. *)
Theorem unknown_field_raises_type_error
    (flatten : dict -> dict) (path_to_fields : list (string * string))
    (issue : dict) (fields : list string) (field : string) :
  dict_lookup path_to_fields field = None ->
  In field fields ->
  py_get (table_dict path_to_fields) field = Ok VNone
  /\ (field_path ← py_get (table_dict path_to_fields) field;
      py_in ".." field_path) = Raise TypeError
  /\ resolve path_to_fields issue (flatten issue) field = Raise TypeError
  /\ (exists e, get_field_values flatten path_to_fields issue fields = Raise e)
  /\ (forall pre post row,
        fields = pre ++ field :: post ->
        get_field_values flatten path_to_fields issue pre = Ok row ->
        get_field_values flatten path_to_fields issue fields = Raise TypeError).
Proof.
  intros Hnone Hin.
  assert (Hget : py_get (table_dict path_to_fields) field = Ok VNone).
  { rewrite table_get, Hnone. reflexivity. }
  assert (Hr : resolve path_to_fields issue (flatten issue) field
               = Raise TypeError).
  { rewrite resolve_statements, Hget. reflexivity. }
  split; [exact Hget|]. split; [rewrite Hget; reflexivity|].
  split; [exact Hr|]. split.
  - unfold get_field_values. eapply for_each_raises_in; eassumption.
  - intros pre post row -> Hpre. unfold get_field_values in *.
    eapply for_each_raises_at; eassumption.
Qed.

Lemma unknown_field_raises_type_error_witness :
  py_get (table_dict path_table) "nonexistent" = Ok VNone
  /\ resolve path_table sample_issue (Flattener.flatten sample_issue)
       "nonexistent" = Raise TypeError
  /\ get_field_values Flattener.flatten path_table sample_issue
       ["key"; "nonexistent"; "summary"] = Raise TypeError.
Proof.
  destruct (unknown_field_raises_type_error Flattener.flatten path_table
              sample_issue ["key"; "nonexistent"; "summary"] "nonexistent")
    as [Hget [_ [Hturn [_ Hrow]]]].
  - reflexivity.
  - simpl. auto.
  - split; [exact Hget|]. split; [exact Hturn|].
    apply (Hrow ["key"] ["summary"] [VStr "TT-1"]); reflexivity.
Defined.

(** The claim as the specification has it fails at the lookup: the name
    "nonexistent" is looked up as a known name is, without an error, the
    result being [None]; the error raised for it is the [TypeError] of the
    marker test, once an issue is resolved. *)
Lemma unknown_field_lookup_returns_none :
  py_get (table_dict path_table) "nonexistent" = Ok VNone
  /\ py_get (table_dict path_table) "key" = Ok (VStr "key")
  /\ get_field_values Flattener.flatten path_table sample_issue ["nonexistent"]
     = Raise TypeError.
Proof. split; [|split]; reflexivity. Qed.

(** *** Priority of the shapes *)

(** C6.  The test for [..] comes first, the test for [|] second, the
    scalar lookup last: a path with [..] goes to the multiple-choice
    strategy whether or not it has [|] too, a path with [|] alone to the
    cascading strategy, and any other path to the flattened document. *)
Theorem multiple_choice_checked_first
    (path_to_fields : list (string * string)) (issue flat : dict)
    (field field_path : string) :
  dict_lookup path_to_fields field = Some field_path ->
  (contains ".." field_path = true ->
     resolve path_to_fields issue flat field
     = _get_value_for_multiple_choice_field field_path (VDict issue))
  /\ (contains ".." field_path = false -> contains "|" field_path = true ->
     resolve path_to_fields issue flat field
     = _get_value_for_cascading_select_field field_path (VDict issue))
  /\ (contains ".." field_path = false -> contains "|" field_path = false ->
     resolve path_to_fields issue flat field = Ok (dict_get flat field_path)).
Proof.
  intros Hfield. unfold resolve. rewrite Hfield.
  split; [|split].
  - intros ->. reflexivity.
  - intros -> ->. reflexivity.
  - intros -> ->. reflexivity.
Qed.

(** The path "fields.labels..|" has both markers; the two strategies
    disagree on the sample issue, and the field gets the multiple-choice
    answer. *)
Lemma multiple_choice_checked_first_witness :
  contains ".." "fields.labels..|" = true
  /\ contains "|" "fields.labels..|" = true
  /\ _get_value_for_cascading_select_field "fields.labels..|"
       (VDict sample_issue) = Raise AttributeError
  /\ resolve path_table sample_issue (Flattener.flatten sample_issue) "labels"
     = Ok (VStr "a").
Proof.
  split; [reflexivity|]. split; [reflexivity|]. split; [reflexivity|].
  rewrite (proj1 (multiple_choice_checked_first path_table sample_issue
                    (Flattener.flatten sample_issue) "labels"
                    "fields.labels..|" eq_refl) eq_refl).
  reflexivity.
Defined.

(** *** Order of the row *)

Lemma dict_lookup_None {A} (d : list (string * A)) (key : string) :
  dict_lookup d key = None <-> key ∉ d.*1.
Proof.
  induction d as [|[k v] d IH]; simpl.
  - split; [intros _; apply not_elem_of_nil | reflexivity].
  - destruct (String.eqb k key) eqn:Hk.
    + apply String.eqb_eq in Hk. subst k. split; [discriminate|].
      intros H. exfalso. apply H. apply elem_of_cons. left. reflexivity.
    + apply String.eqb_neq in Hk. rewrite IH. rewrite not_elem_of_cons.
      split; [intros H; split; [congruence | exact H] | intros [_ H]; exact H].
Qed.

Lemma dict_lookup_Some {A} (d : list (string * A)) (key : string) (v : A) :
  NoDup d.*1 ->
  dict_lookup d key = Some v <-> (key, v) ∈ d.
Proof.
  induction d as [|[k w] d IH]; simpl; intros Hnd.
  - split; [discriminate | intros H; inversion H].
  - apply NoDup_cons in Hnd as [Hk Hnd].
    destruct (String.eqb k key) eqn:Hkk.
    + apply String.eqb_eq in Hkk. subst k. split.
      * intros [= ->]. apply elem_of_cons. left. reflexivity.
      * intros H. apply elem_of_cons in H as [[= ->]|H]; [reflexivity|].
        exfalso. apply Hk. apply list_elem_of_fmap.
        exists (key, v). split; [reflexivity | exact H].
    + apply String.eqb_neq in Hkk. rewrite (IH Hnd). split.
      * intros H. apply elem_of_cons. right. exact H.
      * intros H. apply elem_of_cons in H as [[= -> ->]|H];
          [congruence | exact H].
Qed.

(** A table is read by key only: the order of its entries is immaterial. *)
Lemma dict_lookup_permutation {A} (d d' : list (string * A)) (key : string) :
  NoDup d.*1 -> d ≡ₚ d' -> dict_lookup d key = dict_lookup d' key.
Proof.
  intros Hnd Hperm.
  assert (Hnd' : NoDup d'.*1) by (rewrite <- Hperm; exact Hnd).
  destruct (dict_lookup d key) as [v|] eqn:Hd.
  - symmetry. apply (dict_lookup_Some d' key v Hnd').
    rewrite <- Hperm. apply (dict_lookup_Some d key v Hnd). exact Hd.
  - symmetry. apply dict_lookup_None. rewrite <- Hperm.
    apply dict_lookup_None. exact Hd.
Qed.

End FieldValues.

(** ** export_issues: its names and its page loop *)

Module Pipeline.
Import Resolver.

(** The names the module binds at its top level before [export_issues] can
    be called: the imports of lines 2 to 10 and the four functions.  The
    credentials module is bound as [credentials]. *)
Definition module_globals : list string :=
  ["csv"; "json"; "flatten"; "time"; "datetime";
   "List"; "Dict"; "Any"; "Optional"; "Union";
   "JIRA"; "credentials";
   "_get_value_for_cascading_select_field";
   "_get_value_for_multiple_choice_field";
   "get_field_values"; "export_issues"].

(** The names of the builtins module (Python 3.11, with those the site
    module adds), which are read when the module does not bind a name. *)
Definition builtins : list string :=
  ["ArithmeticError"; "AssertionError"; "AttributeError"; "BaseException";
   "BaseExceptionGroup"; "BlockingIOError"; "BrokenPipeError"; "BufferError";
   "BytesWarning"; "ChildProcessError"; "ConnectionAbortedError";
   "ConnectionError"; "ConnectionRefusedError"; "ConnectionResetError";
   "DeprecationWarning"; "EOFError"; "Ellipsis"; "EncodingWarning";
   "EnvironmentError"; "Exception"; "ExceptionGroup"; "False";
   "FileExistsError"; "FileNotFoundError"; "FloatingPointError";
   "FutureWarning"; "GeneratorExit"; "IOError"; "ImportError";
   "ImportWarning"; "IndentationError"; "IndexError"; "InterruptedError";
   "IsADirectoryError"; "KeyError"; "KeyboardInterrupt"; "LookupError";
   "MemoryError"; "ModuleNotFoundError"; "NameError"; "None";
   "NotADirectoryError"; "NotImplemented"; "NotImplementedError"; "OSError";
   "OverflowError"; "PendingDeprecationWarning"; "PermissionError";
   "ProcessLookupError"; "RecursionError"; "ReferenceError";
   "ResourceWarning"; "RuntimeError"; "RuntimeWarning";
   "StopAsyncIteration"; "StopIteration"; "SyntaxError"; "SyntaxWarning";
   "SystemError"; "SystemExit"; "TabError"; "TimeoutError"; "True";
   "TypeError"; "UnboundLocalError"; "UnicodeDecodeError";
   "UnicodeEncodeError"; "UnicodeError"; "UnicodeTranslateError";
   "UnicodeWarning"; "UserWarning"; "ValueError"; "Warning";
   "ZeroDivisionError"; "__build_class__"; "__debug__"; "__doc__";
   "__import__"; "__loader__"; "__name__"; "__package__"; "__spec__";
   "abs"; "aiter"; "all"; "anext"; "any"; "ascii"; "bin"; "bool";
   "breakpoint"; "bytearray"; "bytes"; "callable"; "chr"; "classmethod";
   "compile"; "complex"; "copyright"; "credits"; "delattr"; "dict"; "dir";
   "divmod"; "enumerate"; "eval"; "exec"; "exit"; "filter"; "float";
   "format"; "frozenset"; "getattr"; "globals"; "hasattr"; "hash"; "help";
   "hex"; "id"; "input"; "int"; "isinstance"; "issubclass"; "iter"; "len";
   "license"; "list"; "locals"; "map"; "max"; "memoryview"; "min"; "next";
   "object"; "oct"; "open"; "ord"; "pow"; "print"; "property"; "quit";
   "range"; "repr"; "reversed"; "round"; "set"; "setattr"; "slice";
   "sorted"; "staticmethod"; "str"; "sum"; "super"; "tuple"; "type"; "vars";
   "zip"].

(** Reading a name that is no local of the function: the namespace of the
    module first, then the builtins; a name bound in neither raises
    [NameError]. *)
Definition load_global (globals : list string) (name : string) : result unit :=
  if bool_decide (name ∈ globals ++ builtins) then Ok () else Raise NameError.

(** What a call leaves outside itself: the [startAt] of every page it
    asked the service for, oldest first, and the rows handed to the csv
    writer, oldest first (none at all as long as the output file is not
    opened). *)
Record sink : Type := {
  requested : list nat;
  written : list (list value)
}.

(** How a call stands after a number of turns of its loop: it left the
    loop at the [break], it was aborted by an exception, or it is still in
    the loop. *)
Inductive outcome : Type :=
| Finished (out : sink)
| Failed (e : exn) (out : sink)
| Running (out : sink).

Definition request (start_at : nat) (out : sink) : sink :=
  {| requested := requested out ++ [start_at]; written := written out |}.

Definition writerow (row : list value) (out : sink) : sink :=
  {| requested := requested out; written := written out ++ [row] |}.

Section Loop.

(** What the function is given from outside: the namespace of its module;
    the set-up of lines 132 to 143 once its first name is read (the call of
    [init_config], the connection [JIRA(...)], [open] on the output file),
    which returns or raises; the flattener, the table of paths, and
    [jira.search_issues] as a function of [maxResults] and [startAt] (the
    query and the field names are the same in every call).  [batch_size]
    is the local constant of the source, 100 there. *)
Variable globals : list string.
Variable set_up : result unit.
Variable flatten : dict -> dict.
Variable path_to_fields : list (string * string).
Variable search_issues : nat -> nat -> list dict.
Variable batch_size : nat.
Variable fields : list string.

(** [for issue in issues_batch: writer.writerow(get_field_values(...))]:
    the rows written before an exception stay written. *)
Fixpoint write_rows (issues_batch : list dict) (out : sink) : sink * option exn :=
  match issues_batch with
  | [] => (out, None)
  | issue :: rest =>
      match get_field_values flatten path_to_fields issue fields with
      | Ok row => write_rows rest (writerow row out)
      | Raise e => (out, Some e)
      end
  end.

(** [while True:] from the turn that fetches page [page_num], for at most
    [fuel] turns.  The progress message of lines 152 and 153 goes to the
    standard output, of which the sink keeps nothing; the first of its two
    string literals lacks its closing quote in the source, and the message
    is read as the two lines it spells. *)
Fixpoint pages (fuel : nat) (page_num : nat) (out : sink) : outcome :=
  match fuel with
  | 0 => Running out
  | S fuel' =>
      let issues_batch := search_issues batch_size (page_num * batch_size) in
      match write_rows issues_batch (request (page_num * batch_size) out) with
      | (out', Some e) => Failed e out'
      | (out', None) =>
          if (length issues_batch <? batch_size)%nat then Finished out'
          else pages fuel' (page_num + 1) out'
      end
  end.

(** The body of [export_issues], statement by statement.  Line 132 reads
    the name [credential] before anything else is done: when the name is not
    bound the call ends there, with no page asked for and no output file.
    Then comes the rest of the set-up, then the header row, then the loop. *)
Definition export_issues (fuel : nat) : outcome :=
  match load_global globals "credential" with
  | Raise e => Failed e {| requested := []; written := [] |}
  | Ok _ =>
      match set_up with
      | Raise e => Failed e {| requested := []; written := [] |}
      | Ok _ => pages fuel 0 {| requested := []; written := [map VStr fields] |}
      end
  end.

(** The page the service returns for page number [i]. *)
Definition page (i : nat) : list dict :=
  search_issues batch_size (i * batch_size).

(** The [startAt] values of the pages [first], ..., [first + count - 1]. *)
Definition offsets (first count : nat) : list nat :=
  map (fun i => i * batch_size) (seq first count).

Lemma write_rows_requested (issues_batch : list dict) (out : sink) :
  requested (fst (write_rows issues_batch out)) = requested out.
Proof.
  revert out. induction issues_batch as [|issue rest IH]; intros out; simpl.
  - reflexivity.
  - destruct (get_field_values flatten path_to_fields issue fields);
      [rewrite IH|]; reflexivity.
Qed.

Lemma offsets_snoc (first count : nat) :
  offsets first (S count) = offsets first count ++ [(first + count) * batch_size].
Proof.
  unfold offsets. rewrite seq_S, map_app. reflexivity.
Qed.

Lemma offsets_cons (first count : nat) :
  offsets first (S count) = first * batch_size :: offsets (first + 1) count.
Proof.
  unfold offsets. simpl. replace (first + 1) with (S first) by lia. reflexivity.
Qed.

(** Leaving the loop at the [break]: the last page fetched was short, and
    every page before it was full. *)
Lemma pages_finished (fuel k : nat) (out out' : sink) :
  pages fuel k out = Finished out' ->
  exists n, k <= n
    /\ requested out' = requested out ++ offsets k (S n - k)
    /\ length (page n) < batch_size
    /\ (forall i, k <= i < n -> batch_size <= length (page i)).
Proof.
  revert k out. induction fuel as [|fuel IH]; intros k out H; simpl in H.
  - discriminate.
  - pose proof (write_rows_requested (search_issues batch_size (k * batch_size))
                  (request (k * batch_size) out)) as Hreq.
    destruct (write_rows _ _) as [out1 [e|]]; [discriminate|].
    simpl in Hreq.
    destruct (length (search_issues batch_size (k * batch_size)) <? batch_size)%nat
      eqn:Hshort.
    + injection H as <-. apply Nat.ltb_lt in Hshort.
      exists k. split; [lia|]. split; [|split].
      * rewrite Hreq. replace (S k - k) with 1 by lia. reflexivity.
      * exact Hshort.
      * intros i Hi. lia.
    + apply Nat.ltb_ge in Hshort.
      destruct (IH _ _ H) as [n [Hkn [Hr [Hn Hfull]]]].
      exists n. split; [lia|]. split; [|split].
      * rewrite Hr, Hreq. rewrite <- app_assoc. f_equal.
        replace (S n - k) with (S (S n - (k + 1))) by lia.
        rewrite offsets_cons. reflexivity.
      * exact Hn.
      * intros i Hi. destruct (decide (i = k)) as [->|Hne].
        -- exact Hshort.
        -- apply Hfull. lia.
Qed.

(** With the first short page at number [n], more than [n - k] turns from
    page [k] end the loop: at the [break] after page [n], or earlier by an
    exception of a row; no page after [n] is asked for. *)
Lemma pages_stop (n : nat) (fuel k : nat) (out : sink) :
  k <= n ->
  length (page n) < batch_size ->
  (forall i, k <= i < n -> batch_size <= length (page i)) ->
  n - k < fuel ->
  (exists out', pages fuel k out = Finished out'
     /\ requested out' = requested out ++ offsets k (S n - k))
  \/ (exists e out' m, pages fuel k out = Failed e out'
     /\ k <= m <= n
     /\ requested out' = requested out ++ offsets k (S m - k)).
Proof.
  revert k out. induction fuel as [|fuel IH]; intros k out Hkn Hn Hfull Hfuel.
  - lia.
  - simpl.
    pose proof (write_rows_requested (search_issues batch_size (k * batch_size))
                  (request (k * batch_size) out)) as Hreq.
    destruct (write_rows _ _) as [out1 [e|]]; simpl in Hreq.
    + right. exists e, out1, k. split; [reflexivity|]. split; [lia|].
      rewrite Hreq. replace (S k - k) with 1 by lia. reflexivity.
    + destruct (length (search_issues batch_size (k * batch_size)) <? batch_size)%nat
        eqn:Hshort.
      * apply Nat.ltb_lt in Hshort.
        destruct (decide (k = n)) as [->|Hne].
        -- left. exists out1. split; [reflexivity|].
           rewrite Hreq. replace (S n - n) with 1 by lia. reflexivity.
        -- assert (Hk : batch_size <= length (page k)) by (apply Hfull; lia).
           unfold page in Hk. lia.
      * apply Nat.ltb_ge in Hshort.
        assert (Hlt : k < n).
        { destruct (decide (k = n)) as [->|Hne]; [unfold page in Hn; lia|lia]. }
        destruct (IH (k + 1) out1) as [[out' [Hrun Hr]]|[e [out' [m [Hrun [Hm Hr]]]]]].
        -- lia.
        -- exact Hn.
        -- intros i Hi. apply Hfull. lia.
        -- lia.
        -- left. exists out'. split; [exact Hrun|].
           rewrite Hr, Hreq. rewrite <- app_assoc. f_equal.
           replace (S n - k) with (S (S n - (k + 1))) by lia.
           rewrite offsets_cons. reflexivity.
        -- right. exists e, out', m. split; [exact Hrun|]. split; [lia|].
           rewrite Hr, Hreq. rewrite <- app_assoc. f_equal.
           replace (S m - k) with (S (S m - (k + 1))) by lia.
           rewrite offsets_cons. reflexivity.
Qed.

(** The rows a page adds to the sink: those of its issues, in order. *)
Lemma write_rows_written (issues_batch : list dict) (out out' : sink) :
  write_rows issues_batch out = (out', None) ->
  exists rows,
    written out' = written out ++ rows
    /\ Forall2 (fun issue row =>
                  get_field_values flatten path_to_fields issue fields = Ok row)
               issues_batch rows.
Proof.
  revert out. induction issues_batch as [|issue rest IH]; intros out H;
    simpl in H.
  - injection H as <-. exists []. rewrite app_nil_r. split; constructor.
  - destruct (get_field_values flatten path_to_fields issue fields)
      as [row|e] eqn:Hrow; [|discriminate].
    destruct (IH _ H) as [rows [Hw Hrows]].
    exists (row :: rows). split.
    + rewrite Hw. simpl. rewrite <- app_assoc. reflexivity.
    + constructor; assumption.
Qed.

(** An aborted run was aborted by the row of an issue of a fetched page. *)
Lemma pages_failed (fuel k : nat) (out out' : sink) (e : exn) :
  pages fuel k out = Failed e out' ->
  exists m issue, k <= m /\ In issue (page m)
    /\ get_field_values flatten path_to_fields issue fields = Raise e.
Proof.
  revert k out. induction fuel as [|fuel IH]; intros k out H; simpl in H.
  - discriminate.
  - destruct (write_rows _ _) as [out1 [e1|]] eqn:Hw.
    + injection H as -> ->. exists k. unfold page.
      clear IH. revert Hw. generalize (request (k * batch_size) out).
      induction (search_issues batch_size (k * batch_size)) as [|issue rest IHr];
        intros o Hw; simpl in Hw.
      * discriminate.
      * destruct (get_field_values flatten path_to_fields issue fields) eqn:Hrow.
        -- destruct (IHr _ Hw) as [issue' [Hk [Hin Hraise]]].
           exists issue'. split; [lia|]. split; [right; exact Hin | exact Hraise].
        -- injection Hw as _ ->. exists issue.
           split; [lia|]. split; [left; reflexivity | exact Hrow].
    + destruct (length _ <? batch_size)%nat; [discriminate|].
      destruct (IH _ _ H) as [m [issue [Hm Hrest]]].
      exists m, issue. split; [lia | exact Hrest].
Qed.

(** Among the pages up to a short one there is a first short one. *)
Lemma first_short_page (n : nat) :
  length (page n) < batch_size ->
  exists m, m <= n /\ length (page m) < batch_size
    /\ (forall i, i < m -> batch_size <= length (page i)).
Proof.
  intros Hn.
  assert (Hscan : forall k,
    (forall i, i < k -> batch_size <= length (page i))
    \/ (exists m, m < k /\ length (page m) < batch_size
          /\ (forall i, i < m -> batch_size <= length (page i)))).
  { induction k as [|k [Hall|Hfound]].
    - left. intros i Hi. lia.
    - destruct (decide (length (page k) < batch_size)) as [Hk|Hk].
      + right. exists k. split; [lia|]. split; assumption.
      + left. intros i Hi. destruct (decide (i = k)) as [->|Hne]; [lia|].
        apply Hall. lia.
    - right. destruct Hfound as [m [Hm Hrest]]. exists m. split; [lia|exact Hrest]. }
  destruct (Hscan n) as [Hall|[m [Hm Hrest]]].
  - exists n. split; [lia|]. split; assumption.
  - exists m. split; [lia | exact Hrest].
Qed.

End Loop.

(** The loop, once entered with the header written, follows the stopping
    rule: it leaves at its [break] only after a page with fewer issues than
    the page size, every page before it having been full; with the first
    such page at number [n] (an empty page included), more than [n] turns
    ask for the pages 0 to [n] and for no other, and end there, unless the
    row of an issue raised on the way. *)
Lemma loop_stops_at_first_short_page
    (flatten : dict -> dict) (path_to_fields : list (string * string))
    (search_issues : nat -> nat -> list dict) (batch_size : nat)
    (fields : list string) :
  let run fuel := pages flatten path_to_fields search_issues batch_size fields
                    fuel 0 {| requested := []; written := [map VStr fields] |} in
  let page := page search_issues batch_size in
  (forall fuel out,
      run fuel = Finished out ->
      exists n, requested out = offsets batch_size 0 (S n)
        /\ length (page n) < batch_size
        /\ (forall i, i < n -> batch_size <= length (page i)))
  /\ (forall n fuel,
      length (page n) < batch_size ->
      (forall i, i < n -> batch_size <= length (page i)) ->
      n < fuel ->
      (exists out, run fuel = Finished out
         /\ requested out = offsets batch_size 0 (S n))
      \/ (exists e out m issue, run fuel = Failed e out
         /\ m <= n /\ requested out = offsets batch_size 0 (S m)
         /\ get_field_values flatten path_to_fields issue fields = Raise e))
  /\ (forall n,
      length (page n) < batch_size ->
      forall fuel, n < fuel -> forall out, run fuel <> Running out).
Proof.
  intros run page0. subst run page0. cbv beta.
  split; [|split].
  - intros fuel out H.
    destruct (pages_finished _ _ _ _ _ _ _ _ _ H) as [n [_ [Hr [Hn Hfull]]]].
    exists n. cbn [requested app] in Hr. rewrite Nat.sub_0_r in Hr.
    split; [exact Hr|]. split; [exact Hn|].
    intros i Hi. apply Hfull. lia.
  - intros n fuel Hn Hfull Hfuel.
    destruct (pages_stop flatten path_to_fields search_issues batch_size fields
                n fuel 0 {| requested := []; written := [map VStr fields] |})
      as [[out [Hrun Hr]]|[e [out [m [Hrun [Hm Hr]]]]]].
    + lia.
    + exact Hn.
    + intros i Hi. apply Hfull. lia.
    + lia.
    + left. exists out. split; [exact Hrun|].
      cbn [requested app] in Hr. rewrite Nat.sub_0_r in Hr. exact Hr.
    + right.
      destruct (pages_failed _ _ _ _ _ _ _ _ _ _ Hrun) as [m' [issue [_ [_ Hraise]]]].
      exists e, out, m, issue. split; [exact Hrun|]. split; [lia|].
      cbn [requested app] in Hr. rewrite Nat.sub_0_r in Hr.
      split; [exact Hr | exact Hraise].
  - intros n Hn fuel Hfuel out Hrun.
    destruct (first_short_page search_issues batch_size n Hn)
      as [m [Hmn [Hm Hfull]]].
    destruct (pages_stop flatten path_to_fields search_issues batch_size fields
                m fuel 0 {| requested := []; written := [map VStr fields] |})
      as [[out' [Hrun' _]]|[e [out' [m' [Hrun' _]]]]];
      try lia; try assumption; try congruence.
    intros i Hi. apply Hfull. lia.
Qed.

(** A service holding four issues, asked in pages of two: the third page
    is empty, and is the last one the loop asks for. *)
Definition four_issues : list dict :=
  [[("key", VStr "TT-1")]; [("key", VStr "TT-2")];
   [("key", VStr "TT-3")]; [("key", VStr "TT-4")]].

Definition four_issue_service (max_results start_at : nat) : list dict :=
  take max_results (drop start_at four_issues).

Example four_issue_loop :
  pages Flattener.flatten FieldValues.path_table four_issue_service 2 ["key"]
    5 0 {| requested := []; written := [[VStr "key"]] |}
  = Finished {| requested := [0; 2; 4];
                written := [[VStr "key"]; [VStr "TT-1"]; [VStr "TT-2"];
                            [VStr "TT-3"]; [VStr "TT-4"]] |}.
Proof. reflexivity. Qed.

(** The name the module binds is [credentials]; no name [credential] is
    bound by the module or by the builtins. *)
Lemma credential_not_bound :
  ("credentials" ∈ module_globals)
  /\ ("credential" ∉ module_globals ++ builtins).
Proof.
  split; apply (bool_decide_unpack _); vm_compute; exact I.
Qed.

(** C7.  [export_issues] does not get as far as its loop.  Its first
    statement reads the name [credential]; in a namespace that does not bind
    it (the module binds [credentials]) the call raises [NameError] there,
    whatever pages the service would return and however many turns the loop
    is allowed: no page is asked for, the first included, and nothing is
    written, the header included.  The call therefore stops without having
    fetched a short page. *)
Theorem export_raises_before_first_page
    (globals : list string) (set_up : result unit)
    (flatten : dict -> dict) (path_to_fields : list (string * string))
    (search_issues : nat -> nat -> list dict) (batch_size : nat)
    (fields : list string) (fuel : nat) :
  "credential" ∉ globals ->
  load_global globals "credential" = Raise NameError
  /\ export_issues globals set_up flatten path_to_fields search_issues
       batch_size fields fuel
     = Failed NameError {| requested := []; written := [] |}.
Proof.
  intros Hfree.
  assert (Hload : load_global globals "credential" = Raise NameError).
  { unfold load_global. rewrite bool_decide_eq_false_2; [reflexivity|].
    intros Hin. apply elem_of_app in Hin as [Hin|Hin]; [exact (Hfree Hin)|].
    revert Hin. apply (bool_decide_unpack _). vm_compute. exact I. }
  split; [exact Hload|].
  unfold export_issues. rewrite Hload. reflexivity.
Qed.

(** The module's own namespace, with the service of four issues, whose
    pages the loop would have fetched up to the empty third one. *)
Lemma export_raises_before_first_page_witness :
  ("credential" ∉ module_globals)
  /\ export_issues module_globals (Ok ()) Flattener.flatten
       FieldValues.path_table four_issue_service 2 ["key"] 5
     = Failed NameError {| requested := []; written := [] |}.
Proof.
  assert (Hfree : "credential" ∉ module_globals).
  { apply (bool_decide_unpack _). vm_compute. exact I. }
  split; [exact Hfree|].
  apply (export_raises_before_first_page module_globals (Ok ())
           Flattener.flatten FieldValues.path_table four_issue_service 2
           ["key"] 5 Hfree).
Defined.

(** C8.  [get_field_values] returns a row exactly when every requested
    name resolves, and the row then holds one value per requested name, the
    i-th value being the one resolved for the i-th name; listing the
    entries of the table of paths in another order changes nothing; and the
    rows [export_issues] writes for a page are these rows, one per issue. *)
Theorem row_follows_requested_order
    (flatten : dict -> dict) (path_to_fields : list (string * string))
    (issue : dict) (fields : list string) :
  (forall row,
      get_field_values flatten path_to_fields issue fields = Ok row <->
      Forall2 (fun field v =>
                 resolve path_to_fields issue (flatten issue) field = Ok v)
              fields row)
  /\ (forall row,
      get_field_values flatten path_to_fields issue fields = Ok row ->
      length row = length fields)
  /\ (forall path_to_fields',
      NoDup path_to_fields.*1 ->
      path_to_fields ≡ₚ path_to_fields' ->
      get_field_values flatten path_to_fields' issue fields
      = get_field_values flatten path_to_fields issue fields)
  /\ (forall out out' row,
      get_field_values flatten path_to_fields issue fields = Ok row ->
      write_rows flatten path_to_fields fields [issue] out = (out', None) ->
      written out' = written out ++ [row]).
Proof.
  split; [|split; [|split]].
  - intros row. unfold get_field_values. apply for_each_Forall2.
  - intros row H. unfold get_field_values in H.
    eapply for_each_length. exact H.
  - intros table' Hnd Hperm. unfold get_field_values.
    apply FieldValues.for_each_ext. intros field. unfold resolve.
    rewrite (FieldValues.dict_lookup_permutation _ _ field Hnd Hperm).
    reflexivity.
  - intros out out' row Hrow Hwrite.
    destruct (write_rows_written _ _ _ _ _ _ Hwrite) as [rows [Hw Hrows]].
    inversion Hrows as [|? row' ? rows' Hrow' Hnil]; subst.
    inversion Hnil; subst. rewrite Hw. congruence.
Qed.

(** The sample table listed backwards gives the same row, in the order of
    the request. *)
Lemma row_follows_requested_order_witness :
  get_field_values Flattener.flatten (reverse FieldValues.path_table)
    FieldValues.sample_issue ["summary"; "components"; "key"]
  = Ok [VStr "Login fails"; VStr "UI|Backend"; VStr "TT-1"].
Proof.
  destruct (row_follows_requested_order Flattener.flatten
              FieldValues.path_table FieldValues.sample_issue
              ["summary"; "components"; "key"])
    as [_ [_ [Hperm _]]].
  rewrite (Hperm (reverse FieldValues.path_table)).
  - reflexivity.
  - apply (bool_decide_unpack _). vm_compute. exact I.
  - symmetry. apply reverse_Permutation.
Defined.

End Pipeline.

(** ** The resolver over a store of shared objects *)

Module Heap.

(** Python passes lists and dicts by reference.  An object lives at an
    address of the store; a reference is an immutable scalar or the address
    of an object, and two references to one address are aliases. *)
Abbreviation loc := nat (only parsing).

Inductive ref : Type :=
| RNone
| RBool (b : bool)
| RInt (z : Z)
| RFloat (f : spec_float)
| RStr (s : string)
| RObj (l : loc).

Inductive object : Type :=
| OList (items : list ref)
| ODict (kvs : list (string * ref)).

(** The store: the object at address [l] is the [l]-th one allocated. *)
Abbreviation store := (list object) (only parsing).

(** A computation reads and writes the store, and returns or raises. *)
Definition M (A : Type) : Type := store -> result A * store.

#[global] Instance M_ret : MRet M := fun A a σ => (Ok a, σ).
#[global] Instance M_bind : MBind M := fun A B k m σ =>
  match m σ with
  | (Ok a, σ') => k a σ'
  | (Raise e, σ') => (Raise e, σ')
  end.

Definition raise {A} (e : exn) : M A := fun σ => (Raise e, σ).

(** The three accesses to the store. *)
Definition load (l : loc) : M object := fun σ =>
  match σ !! l with
  | Some o => (Ok o, σ)
  | None => (Raise SystemError, σ)
  end.

Definition alloc (o : object) : M ref := fun σ =>
  (Ok (RObj (length σ)), σ ++ [o]).

Definition update (l : loc) (o : object) : M unit := fun σ =>
  (Ok tt, <[l := o]> σ).

(** [x.get(key)]. *)
Definition get (x : ref) (key : string) : M ref :=
  match x with
  | RObj l =>
      o ← load l;
      match (o : object) with
      | ODict kvs => mret (default RNone (dict_lookup kvs key))
      | OList _ => raise AttributeError
      end
  | _ => raise AttributeError
  end.

(** [bool(x)]. *)
Definition truthy (x : ref) : M bool :=
  match x with
  | RNone => mret false
  | RBool b => mret b
  | RInt z => mret (negb (z =? 0)%Z)
  | RFloat (S754_zero _) => mret false
  | RFloat _ => mret true
  | RStr s => mret (negb (String.eqb s ""))
  | RObj l =>
      o ← load l;
      mret (match (o : object) with
            | OList [] | ODict [] => false
            | _ => true
            end)
  end.

(** [isinstance(x, list)], with the items of the list when it is one. *)
Definition list_items (x : ref) : M (option (list ref)) :=
  match x with
  | RObj l =>
      o ← load l;
      mret (match (o : object) with
            | OList items => Some items
            | ODict _ => None
            end)
  | _ => mret None
  end.

(** [x.append(v)]: writes the list object in place. *)
Definition append (x v : ref) : M unit :=
  match x with
  | RObj l =>
      o ← load l;
      match (o : object) with
      | OList items => update l (OList (items ++ [v]))
      | ODict _ => raise AttributeError
      end
  | _ => raise AttributeError
  end.

(** The items of [x] for [len(x)], [x[0]] and [sep.join(x)]. *)
Definition read_list (x : ref) : M (list ref) :=
  r ← list_items x;
  match (r : option (list ref)) with
  | Some items => mret items
  | None => raise TypeError
  end.

Fixpoint ref_strings (l : list ref) : result (list string) :=
  match l with
  | [] => Ok []
  | RStr s :: l' => ss ← ref_strings l'; Ok (s :: ss)
  | _ :: _ => Raise TypeError
  end.

(** [sep.join(x)]. *)
Definition str_join (sep : string) (x : ref) : M ref :=
  items ← read_list x;
  match ref_strings items with
  | Ok ss => mret (RStr (join sep ss))
  | Raise e => raise e
  end.

(** The elements of a comprehension, computed in order. *)
Fixpoint comprehension {A B} (f : A -> M B) (l : list A) : M (list B) :=
  match l with
  | [] => mret []
  | x :: l' => y ← f x; ys ← comprehension f l'; mret (y :: ys)
  end.

(** The cascading loop; [values] is the list object it appends to. *)
Fixpoint cascading_loop (parts : list string) (nest values : ref) : M unit :=
  match parts with
  | [] => mret tt
  | path_part :: rest =>
      if contains "|" path_part then
        parent ← get nest "value";
        _ ← append values parent;
        child_option ← get nest "child";
        has_child ← truthy child_option;
        if (has_child : bool) then
          child ← get child_option "value";
          append values child
        else mret tt
      else
        nest' ← get nest path_part;
        cascading_loop rest nest' values
  end.

Definition _get_value_for_cascading_select_field
    (field_path : string) (issue : ref) : M ref :=
  if negb (contains "|" field_path) then mret (RStr "")
  else
    values ← alloc (OList []);
    _ ← cascading_loop (split "." field_path) issue values;
    items ← read_list values;
    match (items : list ref) with
    | [_; _] => str_join "-" values
    | [v] => mret v
    | _ => mret (RStr "")
    end.

(** The multiple-choice loop.  [None] is the early [return '']; [Some v]
    is what the name [values] is bound to when the loop ends: the list
    allocated before the loop, or the one built by the comprehension. *)
Fixpoint multiple_choice_loop (parts : list string) (nest values : ref)
  : M (option ref) :=
  match parts with
  | [] => mret (Some values)
  | path_part :: rest =>
      is_list ← list_items nest;
      match (is_list : option (list ref)) with
      | Some items =>
          vs ← comprehension (fun item => get item "value") items;
          values' ← alloc (OList vs);
          mret (Some values')
      | None =>
          is_true ← truthy nest;
          if (is_true : bool) then
            nest' ← get nest path_part;
            multiple_choice_loop rest nest' values
          else mret None
      end
  end.

Definition _get_value_for_multiple_choice_field
    (field_path : string) (issue : ref) : M ref :=
  if negb (contains ".." field_path) then mret (RStr "")
  else
    values ← alloc (OList []);
    r ← multiple_choice_loop (split "." field_path) issue values;
    match (r : option ref) with
    | None => mret (RStr "")
    | Some values' => str_join "|" values'
    end.

(** One turn of the loop of [get_field_values], for the path [field_path]
    found in the table; [issue] is the raw document and
    [issue_field_values] the flattened one, both in the store. *)
Definition resolve (field_path : string) (issue issue_field_values : ref)
  : M ref :=
  if contains ".." field_path
  then _get_value_for_multiple_choice_field field_path issue
  else if contains "|" field_path
  then _get_value_for_cascading_select_field field_path issue
  else get issue_field_values field_path.

(** A store with the issue
    {"fields": {"components": [{"value": "UI"}, {"value": "Backend"}],
                "customfield_1": {"value": "Region", "child": {"value": "East"}},
                "owner": {"value": {"name": "ann"}}}}
    at address 6 and its flattened document at address 9. *)
Definition sample_store : store :=
  [ ODict [("value", RStr "UI")];
    ODict [("value", RStr "Backend")];
    OList [RObj 0; RObj 1];
    ODict [("value", RStr "East")];
    ODict [("value", RStr "Region"); ("child", RObj 3)];
    ODict [("components", RObj 2); ("customfield_1", RObj 4); ("owner", RObj 8)];
    ODict [("fields", RObj 5)];
    ODict [("name", RStr "ann")];
    ODict [("value", RObj 7)];
    ODict [("fields.components.0.value", RStr "UI");
           ("fields.components.1.value", RStr "Backend");
           ("fields.customfield_1.value", RStr "Region");
           ("fields.customfield_1.child.value", RStr "East");
           ("fields.owner.value.name", RStr "ann")] ].

(** *** The document's objects stay as they are *)

Section Frame.

(** The store a call starts from: the document is in it. *)
Variable σ0 : store.

(** A reference is valid when it is a scalar or an address of [σ0]; [σ0]
    is closed when its objects hold valid references only, as in every
    store Python builds. *)
Definition valid (x : ref) : Prop :=
  match x with
  | RObj l => l < length σ0
  | _ => True
  end.

Definition valid_object (o : object) : Prop :=
  match o with
  | OList items => Forall valid items
  | ODict kvs => Forall (fun kv => valid kv.2) kvs
  end.

Definition closed : Prop := Forall valid_object σ0.

(** A later store [σ] with a list object private to the running call:
    [σ] begins with [σ0], and address [l], past [σ0], holds [items]. *)
Definition local (σ : store) (l : loc) (items : list ref) : Prop :=
  σ0 `prefix_of` σ /\ length σ0 <= l /\ σ !! l = Some (OList items).

(** A computation that writes nothing and whose outcome [r] is the same
    from every store that begins with [σ0]. *)
Definition reads {A} (m : M A) (r : result A) : Prop :=
  forall σ, σ0 `prefix_of` σ -> m σ = (r, σ).

Hypothesis σ0_closed : closed.

Lemma load_reads (l : loc) :
  l < length σ0 ->
  exists o, reads (load l) (Ok o) /\ valid_object o.
Proof.
  intros Hl.
  destruct (lookup_lt_is_Some_2 σ0 l Hl) as [o Ho].
  exists o. split.
  - intros σ Hpre. unfold load.
    rewrite (prefix_lookup_Some _ _ _ _ Ho Hpre). reflexivity.
  - unfold closed in σ0_closed. rewrite Forall_lookup in σ0_closed.
    exact (σ0_closed l o Ho).
Qed.

Lemma dict_lookup_valid (kvs : list (string * ref)) (key : string) (v : ref) :
  Forall (fun kv => valid kv.2) kvs -> dict_lookup kvs key = Some v -> valid v.
Proof.
  induction 1 as [|[k w] kvs Hw _ IH]; simpl; [discriminate|].
  destruct (String.eqb k key); [intros [= <-]; exact Hw | exact IH].
Qed.

(** [x.get(key)] on a valid reference reads and writes nothing, and what
    it returns is valid. *)
Lemma get_reads (x : ref) (key : string) :
  valid x ->
  exists r, reads (get x key) r /\ (forall v, r = Ok v -> valid v).
Proof.
  intros Hx.
  destruct x as [| | | | |l];
    try (exists (Raise AttributeError); split;
         [intros σ _; reflexivity | discriminate]).
  destruct (load_reads l Hx) as [o [Ho Hvo]].
  destruct o as [items|kvs].
  - exists (Raise AttributeError). split; [|discriminate].
    intros σ Hpre. unfold get, mbind, M_bind. rewrite (Ho σ Hpre). reflexivity.
  - exists (Ok (default RNone (dict_lookup kvs key))). split.
    + intros σ Hpre. unfold get, mbind, M_bind. rewrite (Ho σ Hpre). reflexivity.
    + intros v [= <-].
      destruct (dict_lookup kvs key) as [w|] eqn:Hw; simpl; [|exact I].
      exact (dict_lookup_valid kvs key w Hvo Hw).
Qed.

Lemma truthy_reads (x : ref) :
  valid x -> exists b, reads (truthy x) (Ok b).
Proof.
  intros Hx. destruct x as [| |z|f|s|l];
    try (eexists; intros σ _; reflexivity).
  - destruct f; eexists; intros σ _; reflexivity.
  - destruct (load_reads l Hx) as [o [Ho _]].
    eexists. intros σ Hpre. unfold truthy, mbind, M_bind.
    rewrite (Ho σ Hpre). reflexivity.
Qed.

Lemma list_items_reads (x : ref) :
  valid x ->
  exists r, reads (list_items x) (Ok r)
    /\ (forall items, r = Some items -> Forall valid items).
Proof.
  intros Hx. destruct x as [| | | | |l];
    try (exists None; split; [intros σ _; reflexivity | discriminate]).
  destruct (load_reads l Hx) as [o [Ho Hvo]].
  destruct o as [items|kvs].
  - exists (Some items). split.
    + intros σ Hpre. unfold list_items, mbind, M_bind.
      rewrite (Ho σ Hpre). reflexivity.
    + intros items' [= <-]. exact Hvo.
  - exists None. split; [|discriminate].
    intros σ Hpre. unfold list_items, mbind, M_bind.
    rewrite (Ho σ Hpre). reflexivity.
Qed.

Lemma comprehension_reads (items : list ref) :
  Forall valid items ->
  exists r, reads (comprehension (fun item => get item "value") items) r
    /\ (forall vs, r = Ok vs -> Forall valid vs).
Proof.
  induction 1 as [|item items Hitem _ [rs [Hrs Hvs]]].
  - exists (Ok []). split; [intros σ _; reflexivity|].
    intros vs [= <-]. constructor.
  - destruct (get_reads item "value" Hitem) as [r [Hr Hv]].
    destruct r as [v|e].
    + destruct rs as [vs|e].
      * exists (Ok (v :: vs)). split.
        -- intros σ Hpre. simpl. unfold mbind, M_bind.
           rewrite (Hr σ Hpre), (Hrs σ Hpre). reflexivity.
        -- intros vs' [= <-]. constructor; [apply Hv | apply Hvs]; reflexivity.
      * exists (Raise e). split; [|discriminate].
        intros σ Hpre. simpl. unfold mbind, M_bind.
        rewrite (Hr σ Hpre), (Hrs σ Hpre). reflexivity.
    + exists (Raise e). split; [|discriminate].
      intros σ Hpre. simpl. unfold mbind, M_bind.
      rewrite (Hr σ Hpre). reflexivity.
Qed.

(** *** The private list *)

Lemma alloc_local (items : list ref) (σ : store) :
  σ0 `prefix_of` σ ->
  alloc (OList items) σ = (Ok (RObj (length σ)), σ ++ [OList items])
  /\ local (σ ++ [OList items]) (length σ) items.
Proof.
  intros Hpre. split; [reflexivity|]. split; [|split].
  - apply prefix_app_r. exact Hpre.
  - apply prefix_length. exact Hpre.
  - apply list_lookup_middle. reflexivity.
Qed.

(** [values.append(v)] writes the private list and nothing of [σ0]. *)
Lemma append_local (σ : store) (l : loc) (items : list ref) (v : ref) :
  local σ l items ->
  exists σ', append (RObj l) v σ = (Ok tt, σ') /\ local σ' l (items ++ [v]).
Proof.
  intros [Hpre [Hl Hitems]].
  exists (<[l := OList (items ++ [v])]> σ). split.
  - unfold append, mbind, M_bind, load. rewrite Hitems. reflexivity.
  - split; [|split].
    + destruct Hpre as [k ->].
      rewrite insert_app_r_alt by exact Hl. apply prefix_app_r. reflexivity.
    + exact Hl.
    + apply list_lookup_insert_eq. eapply lookup_lt_Some. exact Hitems.
Qed.

Lemma read_list_local (σ : store) (l : loc) (items : list ref) :
  local σ l items -> read_list (RObj l) σ = (Ok items, σ).
Proof.
  intros [_ [_ Hitems]].
  unfold read_list, list_items, mbind, M_bind, load. rewrite Hitems. reflexivity.
Qed.

Lemma str_join_local (sep : string) (σ : store) (l : loc) (items : list ref) :
  local σ l items ->
  str_join sep (RObj l) σ
  = (match ref_strings items with
     | Ok ss => Ok (RStr (join sep ss))
     | Raise e => Raise e
     end, σ).
Proof.
  intros Hloc. unfold str_join, mbind, M_bind.
  rewrite (read_list_local σ l items Hloc).
  destruct (ref_strings items); reflexivity.
Qed.

(** One step of a run: the outcome of the computation in head position
    is known. *)
Ltac run H := rewrite H; cbv beta iota.

(** *** The two walks *)

(** A computation on the private list that, whatever the list holds and
    wherever it is, ends with the outcome [r] having appended [new]. *)
Definition appends (m : ref -> M unit) (r : result unit) (new : list ref)
  : Prop :=
  forall σ l items, local σ l items ->
    exists σ', m (RObj l) σ = (r, σ') /\ local σ' l (items ++ new).

Lemma appends_nothing (m : ref -> M unit) (r : result unit) :
  (forall σ l, m (RObj l) σ = (r, σ)) -> appends m r [].
Proof.
  intros H σ l items Hloc. exists σ. rewrite app_nil_r.
  split; [apply H | exact Hloc].
Qed.

Lemma cascading_loop_appends (parts : list string) (nest : ref) :
  valid nest ->
  exists r new, appends (cascading_loop parts nest) r new.
Proof.
  revert nest. induction parts as [|part rest IH]; intros nest Hnest.
  - exists (Ok tt), []. apply appends_nothing. reflexivity.
  - destruct (contains "|" part) eqn:Hpart.
    + destruct (get_reads nest "value" Hnest) as [[parent|e] [Hparent _]].
      2:{ exists (Raise e), []. intros σ l items Hloc. exists σ.
          rewrite app_nil_r. split; [|exact Hloc].
          cbn [cascading_loop]. rewrite Hpart. unfold mbind, M_bind.
          rewrite (Hparent σ (proj1 Hloc)). reflexivity. }
      destruct (get_reads nest "child" Hnest) as [[child_option|e] [Hchild Hvalid]].
      2:{ exists (Raise e), [parent]. intros σ l items Hloc.
          destruct (append_local σ l items parent Hloc) as [σa [Happ Hloca]].
          exists σa. split; [|exact Hloca].
          cbn [cascading_loop]. rewrite Hpart. unfold mbind, M_bind.
          run (Hparent σ (proj1 Hloc)). run Happ.
          run (Hchild σa (proj1 Hloca)).
          reflexivity. }
      specialize (Hvalid child_option eq_refl).
      destruct (truthy_reads child_option Hvalid) as [[|] Htruthy].
      * destruct (get_reads child_option "value" Hvalid) as [[child|e] [Hvalue _]].
        -- exists (Ok tt), [parent; child]. intros σ l items Hloc.
           destruct (append_local σ l items parent Hloc) as [σa [Happ Hloca]].
           destruct (append_local σa l _ child Hloca) as [σb [Happ' Hlocb]].
           exists σb. split.
           ++ cbn [cascading_loop]. rewrite Hpart. unfold mbind, M_bind.
              run (Hparent σ (proj1 Hloc)). run Happ.
              run (Hchild σa (proj1 Hloca)). run (Htruthy σa (proj1 Hloca)).
              run (Hvalue σa (proj1 Hloca)).
              exact Happ'.
           ++ rewrite <- app_assoc in Hlocb. exact Hlocb.
        -- exists (Raise e), [parent]. intros σ l items Hloc.
           destruct (append_local σ l items parent Hloc) as [σa [Happ Hloca]].
           exists σa. split; [|exact Hloca].
           cbn [cascading_loop]. rewrite Hpart. unfold mbind, M_bind.
           run (Hparent σ (proj1 Hloc)). run Happ.
           run (Hchild σa (proj1 Hloca)). run (Htruthy σa (proj1 Hloca)).
           run (Hvalue σa (proj1 Hloca)).
           reflexivity.
      * exists (Ok tt), [parent]. intros σ l items Hloc.
        destruct (append_local σ l items parent Hloc) as [σa [Happ Hloca]].
        exists σa. split; [|exact Hloca].
        cbn [cascading_loop]. rewrite Hpart. unfold mbind, M_bind.
        run (Hparent σ (proj1 Hloc)). run Happ. run (Hchild σa (proj1 Hloca)).
        run (Htruthy σa (proj1 Hloca)).
        reflexivity.
    + destruct (get_reads nest part Hnest) as [[nest'|e] [Hget Hvalid]].
      * destruct (IH nest' (Hvalid nest' eq_refl)) as [r [new Hrest]].
        exists r, new. intros σ l items Hloc.
        destruct (Hrest σ l items Hloc) as [σ' [Hrun Hloc']].
        exists σ'. split; [|exact Hloc'].
        cbn [cascading_loop]. rewrite Hpart. unfold mbind, M_bind.
        rewrite (Hget σ (proj1 Hloc)). exact Hrun.
      * exists (Raise e), []. intros σ l items Hloc. exists σ.
        rewrite app_nil_r. split; [|exact Hloc].
        cbn [cascading_loop]. rewrite Hpart. unfold mbind, M_bind.
        rewrite (Hget σ (proj1 Hloc)). reflexivity.
Qed.

(** The outcome of the multiple-choice loop started with the empty private
    list: an exception, the early return, or the list that [values] names
    in the end, which is private as well. *)
Definition yields (m : ref -> M (option ref)) (r : result (option (list ref)))
  : Prop :=
  forall σ l, local σ l [] ->
    exists σ', σ0 `prefix_of` σ' /\
      match r with
      | Raise e => m (RObj l) σ = (Raise e, σ')
      | Ok None => m (RObj l) σ = (Ok None, σ')
      | Ok (Some vs) =>
          exists l', m (RObj l) σ = (Ok (Some (RObj l')), σ') /\ local σ' l' vs
      end.

Lemma multiple_choice_loop_yields (parts : list string) (nest : ref) :
  valid nest ->
  exists r, yields (multiple_choice_loop parts nest) r.
Proof.
  revert nest. induction parts as [|part rest IH]; intros nest Hnest.
  - exists (Ok (Some [])). intros σ l Hloc. exists σ.
    split; [exact (proj1 Hloc)|]. exists l. split; [reflexivity | exact Hloc].
  - destruct (list_items_reads nest Hnest) as [[items|] [Hlist Hitems]].
    + destruct (comprehension_reads items (Hitems items eq_refl))
        as [[vs|e] [Hvs _]].
      * exists (Ok (Some vs)). intros σ l Hloc.
        destruct (alloc_local vs σ (proj1 Hloc)) as [Halloc Hloc'].
        exists (σ ++ [OList vs]). split; [exact (proj1 Hloc')|].
        exists (length σ). split; [|exact Hloc'].
        cbn [multiple_choice_loop]. unfold mbind, M_bind.
        run (Hlist σ (proj1 Hloc)). run (Hvs σ (proj1 Hloc)). run Halloc.
        reflexivity.
      * exists (Raise e). intros σ l Hloc. exists σ.
        split; [exact (proj1 Hloc)|].
        cbn [multiple_choice_loop]. unfold mbind, M_bind.
        run (Hlist σ (proj1 Hloc)). run (Hvs σ (proj1 Hloc)). reflexivity.
    + destruct (truthy_reads nest Hnest) as [[|] Htruthy].
      * destruct (get_reads nest part Hnest) as [[nest'|e] [Hget Hvalid]].
        -- destruct (IH nest' (Hvalid nest' eq_refl)) as [r Hrest].
           exists r. intros σ l Hloc.
           destruct (Hrest σ l Hloc) as [σ' [Hpre Hrun]].
           exists σ'. split; [exact Hpre|].
           cbn [multiple_choice_loop]. unfold mbind, M_bind.
           run (Hlist σ (proj1 Hloc)). run (Htruthy σ (proj1 Hloc)).
           run (Hget σ (proj1 Hloc)).
           exact Hrun.
        -- exists (Raise e). intros σ l Hloc. exists σ.
           split; [exact (proj1 Hloc)|].
           cbn [multiple_choice_loop]. unfold mbind, M_bind.
           run (Hlist σ (proj1 Hloc)). run (Htruthy σ (proj1 Hloc)).
           run (Hget σ (proj1 Hloc)).
           reflexivity.
      * exists (Ok None). intros σ l Hloc. exists σ.
        split; [exact (proj1 Hloc)|].
        cbn [multiple_choice_loop]. unfold mbind, M_bind.
        run (Hlist σ (proj1 Hloc)). run (Htruthy σ (proj1 Hloc)). reflexivity.
Qed.

(** *** The strategies and the dispatch *)

(** A computation that ends with the outcome [r] from every store that
    begins with [σ0], in a store that still begins with [σ0]. *)
Definition settles {A} (m : M A) (r : result A) : Prop :=
  forall σ, σ0 `prefix_of` σ ->
    exists σ', m σ = (r, σ') /\ σ0 `prefix_of` σ'.

Lemma reads_settles {A} (m : M A) (r : result A) : reads m r -> settles m r.
Proof. intros H σ Hpre. exists σ. split; [apply H; exact Hpre | exact Hpre]. Qed.

Lemma cascading_settles (field_path : string) (issue : ref) :
  valid issue ->
  exists r, settles (_get_value_for_cascading_select_field field_path issue) r.
Proof.
  intros Hissue. unfold _get_value_for_cascading_select_field.
  destruct (negb (contains "|" field_path)).
  { exists (Ok (RStr "")). apply reads_settles. intros σ _. reflexivity. }
  destruct (cascading_loop_appends (split "." field_path) issue Hissue)
    as [r [new Hloop]].
  exists (match r with
          | Raise e => Raise e
          | Ok _ =>
              match new with
              | [_; _] =>
                  match ref_strings new with
                  | Ok ss => Ok (RStr (join "-" ss))
                  | Raise e => Raise e
                  end
              | [v] => Ok v
              | _ => Ok (RStr "")
              end
          end).
  intros σ Hpre.
  destruct (alloc_local [] σ Hpre) as [Halloc Hloc].
  destruct (Hloop _ _ _ Hloc) as [σ' [Hrun Hloc']]. simpl in Hloc'.
  unfold mbind, M_bind. run Halloc. run Hrun.
  destruct r as [[]|e].
  - rewrite (read_list_local σ' _ new Hloc').
    destruct new as [|v [|w [|x new]]];
      try (exists σ'; split; [reflexivity | exact (proj1 Hloc')]).
    rewrite (str_join_local "-" σ' _ _ Hloc').
    exists σ'. split; [reflexivity | exact (proj1 Hloc')].
  - exists σ'. split; [reflexivity | exact (proj1 Hloc')].
Qed.

Lemma multiple_choice_settles (field_path : string) (issue : ref) :
  valid issue ->
  exists r, settles (_get_value_for_multiple_choice_field field_path issue) r.
Proof.
  intros Hissue. unfold _get_value_for_multiple_choice_field.
  destruct (negb (contains ".." field_path)).
  { exists (Ok (RStr "")). apply reads_settles. intros σ _. reflexivity. }
  destruct (multiple_choice_loop_yields (split "." field_path) issue Hissue)
    as [r Hloop].
  exists (match r with
          | Raise e => Raise e
          | Ok None => Ok (RStr "")
          | Ok (Some vs) =>
              match ref_strings vs with
              | Ok ss => Ok (RStr (join "|" ss))
              | Raise e => Raise e
              end
          end).
  intros σ Hpre.
  destruct (alloc_local [] σ Hpre) as [Halloc Hloc].
  destruct (Hloop _ _ Hloc) as [σ' [Hpre' Hrun]].
  unfold mbind, M_bind. rewrite Halloc.
  destruct r as [[vs|]|e].
  - destruct Hrun as [l' [Hrun Hloc']]. rewrite Hrun.
    rewrite (str_join_local "|" σ' l' vs Hloc').
    exists σ'. split; [reflexivity | exact Hpre'].
  - rewrite Hrun. exists σ'. split; [reflexivity | exact Hpre'].
  - rewrite Hrun. exists σ'. split; [reflexivity | exact Hpre'].
Qed.

Lemma resolve_settles (field_path : string) (issue issue_field_values : ref) :
  valid issue -> valid issue_field_values ->
  exists r, settles (resolve field_path issue issue_field_values) r.
Proof.
  intros Hissue Hflat. unfold resolve.
  destruct (contains ".." field_path).
  - apply multiple_choice_settles. exact Hissue.
  - destruct (contains "|" field_path).
    + apply cascading_settles. exact Hissue.
    + destruct (get_reads issue_field_values field_path Hflat) as [r [Hr _]].
      exists r. apply reads_settles. exact Hr.
Qed.

End Frame.

(** C9.  Resolving a path against a document twice, the second time in
    the store the first call left, gives the same outcome both times, and
    neither call writes an object of the store it was started from: that
    store is an initial segment of the later ones, whose only new objects
    are the lists the calls made for themselves. *)
Theorem resolve_twice_same_and_document_intact
    (σ : store) (field_path : string) (issue issue_field_values : ref) :
  closed σ -> valid σ issue -> valid σ issue_field_values ->
  exists r σ1 σ2,
    resolve field_path issue issue_field_values σ = (r, σ1)
    /\ resolve field_path issue issue_field_values σ1 = (r, σ2)
    /\ σ `prefix_of` σ1 /\ σ `prefix_of` σ2.
Proof.
  intros Hclosed Hissue Hflat.
  destruct (resolve_settles σ Hclosed field_path issue issue_field_values
              Hissue Hflat) as [r Hr].
  destruct (Hr σ (reflexivity σ)) as [σ1 [Hrun1 Hpre1]].
  destruct (Hr σ1 Hpre1) as [σ2 [Hrun2 Hpre2]].
  exists r, σ1, σ2. repeat split; assumption.
Qed.

Lemma sample_store_closed : closed sample_store.
Proof.
  unfold closed, sample_store.
  repeat (constructor;
          [simpl; repeat (constructor; [simpl; first [exact I | lia]|]);
           constructor|]).
  constructor.
Qed.

(** On the sample store: the cascading field of the owner returns the
    owner's object itself (address 7), twice, and the ten objects of the
    document are where and what they were. *)
Lemma resolve_twice_same_and_document_intact_witness :
  exists r σ1 σ2,
    resolve "fields.owner.|" (RObj 6) (RObj 9) sample_store = (r, σ1)
    /\ resolve "fields.owner.|" (RObj 6) (RObj 9) σ1 = (r, σ2)
    /\ sample_store `prefix_of` σ1 /\ sample_store `prefix_of` σ2.
Proof.
  apply (resolve_twice_same_and_document_intact sample_store "fields.owner.|"
           (RObj 6) (RObj 9)).
  - exact sample_store_closed.
  - simpl. lia.
  - simpl. lia.
Defined.

Example resolve_owner_twice :
  resolve "fields.owner.|" (RObj 6) (RObj 9) sample_store
  = (Ok (RObj 7), sample_store ++ [OList [RObj 7]])
  /\ resolve "fields.owner.|" (RObj 6) (RObj 9)
       (sample_store ++ [OList [RObj 7]])
     = (Ok (RObj 7), sample_store ++ [OList [RObj 7]; OList [RObj 7]]).
Proof. split; reflexivity. Qed.

End Heap.

(** ** The credential file: credentials.py *)

Module Config.

(** *** Strings as [configparser] handles them

    A string is a sequence of code points below 256. *)

(** [c.isspace()]. *)
Definition is_space (c : ascii) : bool :=
  match c with
  | "009" | "010" | "011" | "012" | "013"
  | "028" | "029" | "030" | "031" | " " | "133" | "160" => true
  | _ => false
  end%char.

Fixpoint lstrip (s : string) : string :=
  match s with
  | String c s' => if is_space c then lstrip s' else s
  | EmptyString => EmptyString
  end.

Fixpoint rstrip (s : string) : string :=
  match s with
  | EmptyString => EmptyString
  | String c s' =>
      match rstrip s' with
      | EmptyString => if is_space c then EmptyString else String c EmptyString
      | r => String c r
      end
  end.

(** [s.strip()]. *)
Definition strip (s : string) : string := rstrip (lstrip s).

(** [c.lower()] on a code point below 256: A-Z and the capital letters of
    Latin-1 move up by 32. *)
Definition lower_char (c : ascii) : ascii :=
  let n := N_of_ascii c in
  if ((65 <=? n) && (n <=? 90) ||
      (192 <=? n) && (n <=? 222) && negb (n =? 215))%N
  then ascii_of_N (n + 32) else c.

(** [optionxform]: option names are lower-cased. *)
Fixpoint optionxform (s : string) : string :=
  match s with
  | EmptyString => EmptyString
  | String c s' => String (lower_char c) (optionxform s')
  end.

(** [s.replace(old, new)] for a one-character [old]. *)
Fixpoint replace_char (old : ascii) (new : string) (s : string) : string :=
  match s with
  | EmptyString => EmptyString
  | String c s' =>
      if Ascii.eqb c old then new +:+ replace_char old new s'
      else String c (replace_char old new s')
  end.

(** [s.startswith(c)] for a character. *)
Definition starts_with (c : ascii) (s : string) : bool :=
  match s with
  | String a _ => Ascii.eqb a c
  | EmptyString => false
  end.

(** *** Interpolation: [BasicInterpolation] *)

(** [value.replace('%%', '')]. *)
Fixpoint drop_escaped (s : string) : string :=
  match s with
  | String "%" s1 =>
      match s1 with
      | String "%" s2 => drop_escaped s2
      | _ => String "%" (drop_escaped s1)
      end
  | String c s1 => String c (drop_escaped s1)
  | EmptyString => EmptyString
  end.

(** The text of [s] up to its first [)], and what follows that [)]. *)
Fixpoint until_paren (s : string) : option (string * string) :=
  match s with
  | EmptyString => None
  | String ")" s' => Some (EmptyString, s')
  | String c s' =>
      match until_paren s' with
      | Some (name, rest) => Some (String c name, rest)
      | None => None
      end
  end.

(** A match of [_KEYCRE] at the start of [s]: a percent sign, an opening
    parenthesis, a non-empty name without closing parenthesis, a closing
    parenthesis and the letter s.  It gives the name referred to and the
    text after the match. *)
Definition reference (s : string) : option (string * string) :=
  match s with
  | String "%" (String "(" s1) =>
      match until_paren s1 with
      | Some (String c name, String "s" rest) => Some (String c name, rest)
      | _ => None
      end
  | _ => None
  end.

(** [_KEYCRE.sub('', s)]: the matches are taken out, left to right. *)
Fixpoint drop_references (fuel : nat) (s : string) : string :=
  match fuel with
  | 0 => s
  | S fuel' =>
      match reference s with
      | Some (_, rest) => drop_references fuel' rest
      | None =>
          match s with
          | EmptyString => EmptyString
          | String c s' => String c (drop_references fuel' s')
          end
      end
  end.

(** [before_set]: a value with a [%] that is neither doubled nor the start
    of a reference is refused. *)
Definition before_set (value : string) : result string :=
  let tmp_value := drop_escaped value in
  let tmp_value := drop_references (String.length tmp_value) tmp_value in
  if contains "%" tmp_value then Raise ValueError else Ok value.

(** [RawConfigParser.set] on the default section: [before_set] is asked
    for a non-empty value only. *)
Definition set_option (defaults : list (string * string))
    (option value : string) : result (list (string * string)) :=
  checked ← (if String.eqb value "" then Ok value else before_set value);
  Ok (defaults ++ [(optionxform option, checked)]).

(** The text of [rest] up to its first [%] and the text from there. *)
Fixpoint until_percent (rest : string) : string * string :=
  match rest with
  | EmptyString => (EmptyString, EmptyString)
  | String "%" _ => (EmptyString, rest)
  | String c rest' =>
      let (before, from) := until_percent rest' in (String c before, from)
  end.

(** [_interpolate_some]: the value with [%%] read as [%] and [%(name)s]
    as the value of the option [name], itself interpolated one level
    deeper.  [levels] is the number of levels still allowed (ten at the
    start); [fuel] bounds the scan of [rest], which shortens at every turn
    of the [while rest:] loop. *)
Fixpoint interpolate (levels : nat) (map : list (string * string))
    (rest : string) {struct levels} : result string :=
  match levels with
  | 0 => Raise InterpolationDepthError
  | S levels' =>
      (fix scan (fuel : nat) (rest : string) {struct fuel} : result string :=
         match fuel with
         | 0 => Ok EmptyString
         | S fuel' =>
             let (before, from) := until_percent rest in
             match from with
             | EmptyString => Ok before
             | String _ (String "%" rest') =>
                 tail ← scan fuel' rest';
                 Ok (before +:+ "%" +:+ tail)
             | String _ (String "(" _) =>
                 match reference from with
                 | None => Raise InterpolationSyntaxError
                 | Some (name, rest') =>
                     match dict_lookup map (optionxform name) with
                     | None => Raise InterpolationMissingOptionError
                     | Some v =>
                         expansion ←
                           (if contains "%" v then interpolate levels' map v
                            else Ok v);
                         tail ← scan fuel' rest';
                         Ok (before +:+ expansion +:+ tail)
                     end
                 end
             | String _ _ => Raise InterpolationSyntaxError
             end
         end) (S (String.length rest)) rest
  end.

(** [before_get]. *)
Definition before_get (map : list (string * string)) (value : string)
  : result string :=
  interpolate 10 map value.

(** *** Writing: [config['DEFAULT'] = {...}] and [config.write] *)

Definition nl : string := String "010" EmptyString.
Definition tab : string := String "009" EmptyString.

(** [config['DEFAULT'] = items] on a fresh parser: [read_dict] sets the
    options in the order of the dict; in strict mode two keys with one
    lower-cased name are refused. *)
Fixpoint read_dict (defaults : list (string * string))
    (items : list (string * string)) : result (list (string * string)) :=
  match items with
  | [] => Ok defaults
  | (key, value) :: items' =>
      match dict_lookup defaults (optionxform key) with
      | Some _ => Raise DuplicateOptionError
      | None =>
          defaults' ← set_option defaults key value;
          read_dict defaults' items'
      end
  end.

(** One line of [_write_section]: "key = value", a line break inside the
    value being followed by a tab. *)
Definition option_line (item : string * string) : string :=
  item.1 +:+ " = " +:+ replace_char "010" (nl +:+ tab) item.2 +:+ nl.

Fixpoint option_lines (items : list (string * string)) : string :=
  match items with
  | [] => EmptyString
  | item :: items' => option_line item +:+ option_lines items'
  end.

(** [config.write(configfile)]: the default section, when it has options. *)
Definition write (defaults : list (string * string)) : string :=
  match defaults with
  | [] => EmptyString
  | _ => "[DEFAULT]" +:+ nl +:+ option_lines defaults +:+ nl
  end.

(** *** Reading: [config.read] *)

(** Text mode with universal newlines: "\r\n" and "\r" are read as
    "\n". *)
Fixpoint universal_newlines (s : string) : string :=
  match s with
  | EmptyString => EmptyString
  | String "013" s' =>
      match s' with
      | String "010" _ => universal_newlines s'
      | _ => String "010" (universal_newlines s')
      end
  | String c s' => String c (universal_newlines s')
  end.

(** The lines of a text file, without their final line break. *)
Definition file_lines (text : string) : list string :=
  match reverse (split "010" text) with
  | EmptyString :: lines => reverse lines
  | _ => split "010" text
  end.

(** The position of the first character that is not a space. *)
Fixpoint indent_of (line : string) : nat :=
  match line with
  | String c line' => if is_space c then S (indent_of line') else 0
  | EmptyString => 0
  end.

(** The text of [s] before its last "]". *)
Fixpoint before_last_bracket (s : string) : option string :=
  match s with
  | EmptyString => None
  | String c s' =>
      match before_last_bracket s' with
      | Some header => Some (String c header)
      | None => if Ascii.eqb c "]" then Some EmptyString else None
      end
  end.

(** [SECTCRE.match(value)]: an opening bracket, a non-empty header, a
    closing bracket, the last one of the line. *)
Definition section_header (value : string) : option string :=
  match value with
  | String "[" s =>
      match before_last_bracket s with
      | Some (String c header) => Some (String c header)
      | _ => None
      end
  | _ => None
  end.

(** [_optcre.match(value)]: an option, spaces, a delimiter ([=] or [:]),
    spaces, a value.  The option is the shortest text that spaces and a
    delimiter follow; the value is what comes after the delimiter and the
    spaces behind it. *)
Fixpoint option_match (value : string) : option (string * string) :=
  match lstrip value with
  | String ("=" | ":") after => Some (EmptyString, lstrip after)
  | _ =>
      match value with
      | EmptyString => None
      | String c value' =>
          match option_match value' with
          | Some (option, optval) => Some (String c option, optval)
          | None => None
          end
      end
  end%char.

(** The options of a section while it is read: each value is the list of
    its lines. *)
Definition options : Type := list (string * list string).

Fixpoint set_lines (d : options) (name : string) (lines : list string) : options :=
  match d with
  | [] => [(name, lines)]
  | (k, w) :: d' =>
      if String.eqb k name then (k, lines) :: d'
      else (k, w) :: set_lines d' name lines
  end.

(** The state of [_read] between two lines. *)
Record reader : Type := {
  defaults : options;
  sections : list (string * options);
  elements_added : list (string * option string);
  cursect : option string;
  optname : option string;
  indent_level : nat;
  e : bool
}.

Definition fresh_reader : reader :=
  {| defaults := []; sections := []; elements_added := [];
     cursect := None; optname := None; indent_level := 0; e := false |}.

(** The options of the current section, and their replacement. *)
Definition current_options (r : reader) (sect : string) : options :=
  if String.eqb sect "DEFAULT" then defaults r
  else match dict_lookup (sections r) sect with
       | Some d => d
       | None => []
       end.

Fixpoint set_section (l : list (string * options)) (sect : string) (d : options)
  : list (string * options) :=
  match l with
  | [] => [(sect, d)]
  | (k, w) :: l' =>
      if String.eqb k sect then (k, d) :: l' else (k, w) :: set_section l' sect d
  end.

Definition with_options (r : reader) (sect : string) (d : options) : reader :=
  if String.eqb sect "DEFAULT" then
    {| defaults := d; sections := sections r;
       elements_added := elements_added r; cursect := cursect r;
       optname := optname r; indent_level := indent_level r; e := e r |}
  else
    {| defaults := defaults r; sections := set_section (sections r) sect d;
       elements_added := elements_added r; cursect := cursect r;
       optname := optname r; indent_level := indent_level r; e := e r |}.

(** [cursect[optname].append(value)]. *)
Definition append_line (r : reader) (sect name value : string) : reader :=
  let d := current_options r sect in
  match dict_lookup d name with
  | Some lines => with_options r sect (set_lines d name (lines ++ [value]))
  | None => r
  end.

Definition seen (x : string * option string)
    (l : list (string * option string)) : bool :=
  existsb (fun y => String.eqb x.1 y.1 &&
                    match x.2, y.2 with
                    | Some a, Some b => String.eqb a b
                    | None, None => true
                    | _, _ => false
                    end) l.

(** One turn of the loop of [_read], on [line]. *)
Definition read_line (r : reader) (line : string) : result reader :=
  let stripped := strip line in
  if starts_with "#" stripped || starts_with ";" stripped then Ok r
  else if String.eqb stripped "" then
    match cursect r, optname r with
    | Some sect, Some (String c name) => Ok (append_line r sect (String c name) "")
    | _, _ => Ok r
    end
  else
    let cur_indent_level := indent_of line in
    let continuation :=
      match cursect r, optname r with
      | Some sect, Some (String c name) =>
          if (indent_level r <? cur_indent_level)%nat
          then Some (append_line r sect (String c name) stripped)
          else None
      | _, _ => None
      end in
    match continuation with
    | Some r' => Ok r'
    | None =>
        match section_header stripped with
        | Some sectname =>
            if String.eqb sectname "DEFAULT" then
              Ok {| defaults := defaults r; sections := sections r;
                    elements_added := elements_added r;
                    cursect := Some sectname; optname := None;
                    indent_level := cur_indent_level; e := e r |}
            else if seen (sectname, None) (elements_added r)
            then Raise DuplicateSectionError
            else
              Ok {| defaults := defaults r;
                    sections := set_section (sections r) sectname [];
                    elements_added := (sectname, None) :: elements_added r;
                    cursect := Some sectname; optname := None;
                    indent_level := cur_indent_level; e := e r |}
        | None =>
            match cursect r with
            | None => Raise MissingSectionHeaderError
            | Some sect =>
                match option_match stripped with
                | Some (option, optval) =>
                    let name := optionxform (rstrip option) in
                    if seen (sect, Some name) (elements_added r)
                    then Raise DuplicateOptionError
                    else
                      let r' :=
                        {| defaults := defaults r; sections := sections r;
                           elements_added :=
                             (sect, Some name) :: elements_added r;
                           cursect := cursect r; optname := Some name;
                           indent_level := cur_indent_level;
                           e := e r || String.eqb option "" |} in
                      Ok (with_options r' sect
                            (set_lines (current_options r' sect) name
                               [strip optval]))
                | None =>
                    Ok {| defaults := defaults r; sections := sections r;
                          elements_added := elements_added r;
                          cursect := cursect r; optname := optname r;
                          indent_level := cur_indent_level; e := true |}
                end
            end
        end
    end.

Fixpoint read_lines (r : reader) (lines : list string) : result reader :=
  match lines with
  | [] => Ok r
  | line :: lines' => r' ← read_line r line; read_lines r' lines'
  end.

(** [_join_multiline_values] on the default section. *)
Definition join_lines (d : options) : list (string * string) :=
  map (fun kv => (kv.1, rstrip (join nl kv.2))) d.

(** [_read]: the options of the default section of the text. *)
Definition _read (text : string) : result (list (string * string)) :=
  r ← read_lines fresh_reader (file_lines (universal_newlines text));
  if e r then Raise ParsingError else Ok (join_lines (defaults r)).

(** [config['DEFAULT'][key]]. *)
Definition getitem (defaults : list (string * string)) (key : string)
  : result string :=
  match dict_lookup defaults (optionxform key) with
  | None => Raise KeyError
  | Some value => before_get defaults value
  end.

(** *** credentials.py *)

Record Credential : Type := {
  username : string;
  password : string;
  server_url : string
}.

(** [read_config(credential)] with [file], the content of credentials.ini,
    or [None] when there is no such file: [config.read] then skips it. *)
Definition read_config (file : option string) : result Credential :=
  config ← match file with
           | Some text => _read text
           | None => Ok []
           end;
  u ← getitem config "Username";
  p ← getitem config "Password";
  s ← getitem config "Server";
  Ok {| username := u; password := p; server_url := s |}.

(** [_create_config(credential)] with the three lines [input()] returns:
    the credential and the content written to credentials.ini. *)
Definition _create_config (login pass host : string)
  : result (Credential * string) :=
  config ← read_dict [] [("Username", login); ("Password", pass);
                         ("Server", host)];
  Ok ({| username := login; password := pass; server_url := host |},
      write config).

(** [init_config()]: the credential, and the file as it is afterwards. *)
Definition init_config (file : option string) (login pass host : string)
  : result (Credential * option string) :=
  match file with
  | Some _ => c ← read_config file; Ok (c, file)
  | None => r ← _create_config login pass host; Ok (r.1, Some r.2)
  end.

(** *** Notions for the round trip *)

(** [c] does not occur in [s]. *)
Definition lacks (c : ascii) (s : string) : Prop :=
  contains (String c EmptyString) s = false.

(** The file [_create_config] writes for three values it accepts. *)
Definition written (u p s : string) : string :=
  write [("username", u); ("password", p); ("server", s)].

(** The characters of the option names this code writes: no space and no
    delimiter. *)
Definition name_char (c : ascii) : bool :=
  negb (is_space c) && negb (Ascii.eqb c "=") && negb (Ascii.eqb c ":").

Fixpoint name_chars (s : string) : bool :=
  match s with
  | EmptyString => true
  | String c s' => name_char c && name_chars s'
  end.

(** What follows the delimiter in a stripped option line. *)
Definition after_delimiter (u : string) : string :=
  match u with
  | EmptyString => EmptyString
  | _ => " " +:+ u
  end.

(** A string [init_config] stores and reads back unchanged: no space at
    either end, no [%], no line break. *)
Definition plain (s : string) : Prop :=
  strip s = s /\ lacks "%" s /\ lacks "010" s /\ lacks "013" s.

(** *** Facts about the strings *)

#[local] Arguments String.append !s1 s2 : simpl nomatch.

Lemma contains_char_cons (c a : ascii) (s : string) :
  contains (String c EmptyString) (String a s)
  = Ascii.eqb a c || contains (String c EmptyString) s.
Proof.
  simpl. destruct (ascii_dec c a) as [->|Hne].
  - rewrite Ascii.eqb_refl. destruct s; reflexivity.
  - destruct (Ascii.eqb a c) eqn:Heq; [|reflexivity].
    apply Ascii.eqb_eq in Heq. congruence.
Qed.

Lemma lacks_cons (c a : ascii) (s : string) :
  lacks c (String a s) <-> Ascii.eqb a c = false /\ lacks c s.
Proof.
  unfold lacks. rewrite contains_char_cons. apply orb_false_iff.
Qed.

Lemma lacks_app (c : ascii) (s t : string) :
  lacks c s -> lacks c t -> lacks c (s +:+ t).
Proof.
  intros Hs Ht. induction s as [|a s IH]; simpl; [exact Ht|].
  apply lacks_cons in Hs as [Ha Hs]. apply lacks_cons. split; auto.
Qed.

Lemma append_assoc (s t u : string) : (s +:+ t) +:+ u = s +:+ (t +:+ u).
Proof. induction s as [|a s IH]; simpl; [reflexivity | rewrite IH; reflexivity]. Qed.

Lemma append_nil_r (s : string) : s +:+ "" = s.
Proof. induction s as [|a s IH]; simpl; [reflexivity | rewrite IH; reflexivity]. Qed.

Lemma replace_char_lacks (old : ascii) (new s : string) :
  lacks old s -> replace_char old new s = s.
Proof.
  induction s as [|a s IH]; intros H; simpl; [reflexivity|].
  apply lacks_cons in H as [Ha Hs]. rewrite Ha, (IH Hs). reflexivity.
Qed.

Lemma universal_newlines_app (s rest : string) :
  lacks "013" s ->
  universal_newlines (s +:+ rest) = s +:+ universal_newlines rest.
Proof.
  induction s as [|a s IH]; intros H; simpl; [reflexivity|].
  apply lacks_cons in H as [Ha Hs].
  destruct (ascii_dec a "013") as [->|Hne]; [discriminate|].
  rewrite <- (IH Hs).
  destruct a as [[] [] [] [] [] [] [] []]; try reflexivity. congruence.
Qed.

Lemma split_app (sep : ascii) (s rest : string) :
  lacks sep s ->
  split sep (s +:+ String sep rest) = s :: split sep rest.
Proof.
  induction s as [|a s IH]; intros H; simpl.
  - rewrite Ascii.eqb_refl. reflexivity.
  - apply lacks_cons in H as [Ha Hs]. rewrite Ha, (IH Hs). reflexivity.
Qed.

Lemma lstrip_length (s : string) : String.length (lstrip s) <= String.length s.
Proof.
  induction s as [|a s IH]; simpl; [lia|].
  destruct (is_space a); simpl; lia.
Qed.

Lemma rstrip_length (s : string) : String.length (rstrip s) <= String.length s.
Proof.
  induction s as [|a s IH]; simpl; [lia|].
  destruct (rstrip s); [destruct (is_space a)|]; simpl in *; lia.
Qed.

(** A string that [strip] leaves alone has no space at either end. *)
Lemma strip_fixed (s : string) :
  strip s = s -> lstrip s = s /\ rstrip s = s.
Proof.
  intros H.
  assert (Hl : lstrip s = s).
  { pose proof (rstrip_length (lstrip s)) as Hr.
    unfold strip in H. rewrite H in Hr.
    destruct s as [|a s]; [reflexivity|]. simpl in *.
    destruct (is_space a); [|reflexivity].
    pose proof (lstrip_length s). lia. }
  split; [exact Hl|]. unfold strip in H. rewrite Hl in H. exact H.
Qed.

Lemma rstrip_app (s t : string) :
  rstrip (s +:+ t)
  = match rstrip t with
    | EmptyString => rstrip s
    | r => s +:+ r
    end.
Proof.
  induction s as [|a s IH]; simpl.
  - destruct (rstrip t); reflexivity.
  - rewrite IH. destruct (rstrip t) as [|b r]; [reflexivity|].
    destruct s; reflexivity.
Qed.

Lemma until_percent_lacks (s : string) :
  lacks "%" s -> until_percent s = (s, EmptyString).
Proof.
  induction s as [|a s IH]; intros H; simpl; [reflexivity|].
  apply lacks_cons in H as [Ha Hs]. rewrite (IH Hs).
  destruct (ascii_dec a "%") as [->|Hne]; [discriminate|].
  destruct a as [[] [] [] [] [] [] [] []]; try reflexivity. congruence.
Qed.

Lemma drop_escaped_lacks (s : string) : lacks "%" s -> drop_escaped s = s.
Proof.
  induction s as [|a s IH]; intros H; simpl; [reflexivity|].
  apply lacks_cons in H as [Ha Hs]. rewrite (IH Hs).
  destruct (ascii_dec a "%") as [->|Hne]; [discriminate|].
  destruct a as [[] [] [] [] [] [] [] []]; try reflexivity. congruence.
Qed.

Lemma reference_lacks (s : string) : lacks "%" s -> reference s = None.
Proof.
  destruct s as [|a s]; intros H; [reflexivity|].
  apply lacks_cons in H as [Ha _].
  destruct (ascii_dec a "%") as [->|Hne]; [discriminate|].
  destruct a as [[] [] [] [] [] [] [] []]; try reflexivity. congruence.
Qed.

Lemma drop_references_lacks (fuel : nat) (s : string) :
  lacks "%" s -> drop_references fuel s = s.
Proof.
  revert s. induction fuel as [|fuel IH]; intros s H; simpl; [reflexivity|].
  rewrite (reference_lacks s H).
  destruct s as [|a s]; [reflexivity|].
  apply lacks_cons in H as [_ Hs]. rewrite (IH s Hs). reflexivity.
Qed.

(** A value without [%] passes [before_set] and is read as it is. *)
Lemma before_set_lacks (value : string) :
  lacks "%" value -> before_set value = Ok value.
Proof.
  intros H. unfold before_set.
  rewrite (drop_escaped_lacks value H), (drop_references_lacks _ value H).
  unfold lacks in H. rewrite H. reflexivity.
Qed.

Lemma before_get_lacks (map : list (string * string)) (value : string) :
  lacks "%" value -> before_get map value = Ok value.
Proof.
  intros H. unfold before_get. cbn [interpolate].
  rewrite (until_percent_lacks value H). reflexivity.
Qed.


(** *** Writing and reading back *)

Lemma set_option_lacks (d : list (string * string)) (option value : string) :
  lacks "%" value ->
  set_option d option value = Ok (d ++ [(optionxform option, value)]).
Proof.
  intros H. unfold set_option.
  destruct (String.eqb value ""); [reflexivity|].
  rewrite (before_set_lacks value H). reflexivity.
Qed.

Lemma create_config_written (u p s : string) :
  lacks "%" u -> lacks "%" p -> lacks "%" s ->
  _create_config u p s
  = Ok ({| username := u; password := p; server_url := s |}, written u p s).
Proof.
  intros Hu Hp Hs. unfold _create_config. cbn [read_dict dict_lookup].
  rewrite (set_option_lacks [] "Username" u Hu).
  change (optionxform "Username") with "username".
  change (optionxform "Password") with "password".
  change (optionxform "Server") with "server".
  cbn [mbind result_bind app dict_lookup String.eqb Ascii.eqb Bool.eqb].
  rewrite (set_option_lacks _ "Password" p Hp).
  change (optionxform "Password") with "password".
  cbn [mbind result_bind app dict_lookup String.eqb Ascii.eqb Bool.eqb].
  rewrite (set_option_lacks _ "Server" s Hs).
  reflexivity.
Qed.

Lemma written_lines (u p s : string) :
  lacks "010" u -> lacks "010" p -> lacks "010" s ->
  lacks "013" u -> lacks "013" p -> lacks "013" s ->
  file_lines (universal_newlines (written u p s))
  = ["[DEFAULT]"; "username = " +:+ u; "password = " +:+ p;
     "server = " +:+ s; ""].
Proof.
  intros Hu Hp Hs Hu' Hp' Hs'.
  assert (Htext : written u p s
    = "[DEFAULT]" +:+ String "010" (("username = " +:+ u) +:+ String "010"
        (("password = " +:+ p) +:+ String "010"
           (("server = " +:+ s) +:+ String "010" (String "010" ""))))).
  { unfold written, write, option_lines, option_line. cbn [fst snd].
    rewrite !(replace_char_lacks "010") by assumption.
    unfold nl. rewrite ?append_assoc. simpl. rewrite ?append_assoc.
    reflexivity. }
  assert (Hline : forall key v c,
            lacks c key -> lacks c v -> lacks c (key +:+ v)).
  { intros key v c. apply lacks_app. }
  rewrite Htext.
  rewrite (universal_newlines_app "[DEFAULT]") by reflexivity.
  cbn [universal_newlines].
  rewrite (universal_newlines_app ("username = " +:+ u))
    by (apply Hline; [reflexivity | assumption]).
  cbn [universal_newlines].
  rewrite (universal_newlines_app ("password = " +:+ p))
    by (apply Hline; [reflexivity | assumption]).
  cbn [universal_newlines].
  rewrite (universal_newlines_app ("server = " +:+ s))
    by (apply Hline; [reflexivity | assumption]).
  cbn [universal_newlines].
  unfold file_lines.
  rewrite (split_app "010" "[DEFAULT]") by reflexivity.
  rewrite (split_app "010" ("username = " +:+ u))
    by (apply Hline; [reflexivity | assumption]).
  rewrite (split_app "010" ("password = " +:+ p))
    by (apply Hline; [reflexivity | assumption]).
  rewrite (split_app "010" ("server = " +:+ s))
    by (apply Hline; [reflexivity | assumption]).
  reflexivity.
Qed.

Lemma rstrip_name (key : string) : name_chars key = true -> rstrip key = key.
Proof.
  induction key as [|c key IH]; simpl; [reflexivity|].
  intros H. apply andb_true_iff in H as [Hc Hkey]. rewrite (IH Hkey).
  unfold name_char in Hc. apply andb_true_iff in Hc as [Hc _].
  apply andb_true_iff in Hc as [Hc _].
  destruct key; [|reflexivity].
  destruct (is_space c); [discriminate | reflexivity].
Qed.

Lemma option_match_name (key rest : string) :
  name_chars key = true ->
  option_match (key +:+ rest)
  = match option_match rest with
    | Some (option, optval) => Some (key +:+ option, optval)
    | None => None
    end.
Proof.
  induction key as [|c key IH]; intros H.
  - simpl. destruct (option_match rest) as [[o v]|]; reflexivity.
  - simpl in H. apply andb_true_iff in H as [Hc Hkey].
    change (String c key +:+ rest) with (String c (key +:+ rest)).
    cbn [option_match]. rewrite (IH Hkey).
    assert (Hl : lstrip (String c (key +:+ rest)) = String c (key +:+ rest)).
    { simpl. unfold name_char in Hc.
      destruct (is_space c); [discriminate | reflexivity]. }
    rewrite Hl.
    destruct (option_match rest) as [[o v]|];
      destruct c as [[] [] [] [] [] [] [] []]; try discriminate; reflexivity.
Qed.

Lemma strip_option_line (c : ascii) (key u : string) :
  is_space c = false -> rstrip u = u ->
  strip (String c key +:+ " = " +:+ u)
  = String c key +:+ " =" +:+ after_delimiter u.
Proof.
  intros Hc Hr. unfold strip.
  assert (Hl : lstrip (String c key +:+ " = " +:+ u)
               = String c key +:+ " = " +:+ u).
  { simpl. rewrite Hc. reflexivity. }
  rewrite Hl, rstrip_app, (rstrip_app " = " u), Hr.
  destruct u as [|a u]; reflexivity.
Qed.

Lemma option_match_line (key u : string) :
  name_chars key = true -> lstrip u = u ->
  option_match (key +:+ " =" +:+ after_delimiter u) = Some (key, u).
Proof.
  intros Hkey Hl. rewrite (option_match_name key _ Hkey).
  assert (Hrest : option_match (" =" +:+ after_delimiter u) = Some ("", u)).
  { destruct u as [|a u]; [reflexivity|].
    cbn. simpl in Hl. destruct (is_space a); [|reflexivity].
    pose proof (lstrip_length u) as Hlen. rewrite Hl in Hlen. simpl in Hlen. lia. }
  rewrite Hrest, append_nil_r. reflexivity.
Qed.

Lemma section_header_other (c : ascii) (s : string) :
  Ascii.eqb c "[" = false -> section_header (String c s) = None.
Proof.
  intros H. destruct c as [[] [] [] [] [] [] [] []];
    try reflexivity. discriminate.
Qed.

(** A line "key = u" read in the default section, when no option is being
    continued further to the left. *)
Lemma read_line_option (r : reader) (c : ascii) (key u : string) :
  name_chars (String c key) = true ->
  Ascii.eqb c "#" = false -> Ascii.eqb c ";" = false ->
  Ascii.eqb c "[" = false ->
  lstrip u = u -> rstrip u = u ->
  cursect r = Some "DEFAULT" ->
  indent_level r = 0 ->
  seen ("DEFAULT", Some (optionxform (String c key))) (elements_added r)
  = false ->
  read_line r (String c key +:+ " = " +:+ u)
  = Ok {| defaults := set_lines (defaults r) (optionxform (String c key)) [u];
          sections := sections r;
          elements_added :=
            ("DEFAULT", Some (optionxform (String c key))) :: elements_added r;
          cursect := Some "DEFAULT";
          optname := Some (optionxform (String c key));
          indent_level := 0;
          e := e r |}.
Proof.
  intros Hname Hhash Hsemi Hbracket Hl Hr Hsect Hindent Hseen.
  assert (Hc : is_space c = false).
  { simpl in Hname. unfold name_char in Hname.
    destruct (is_space c); [discriminate | reflexivity]. }
  unfold read_line.
  rewrite (strip_option_line c key u Hc Hr).
  change (String c key +:+ " =" +:+ after_delimiter u)
    with (String c (key +:+ " =" +:+ after_delimiter u)).
  cbn [starts_with]. rewrite Hhash, Hsemi. cbn [orb String.eqb].
  change (String c key +:+ " = " +:+ u) with (String c (key +:+ " = " +:+ u)).
  cbn [indent_of]. rewrite Hc, Hsect, Hindent.
  assert (Hcont : forall o : option string,
            match o with
            | Some (String c0 name) =>
                if (0 <? 0)%nat
                then Some (append_line r "DEFAULT" (String c0 name)
                             (String c (key +:+ " =" +:+ after_delimiter u)))
                else None
            | _ => None
            end = None).
  { intros [[|? ?]|]; reflexivity. }
  rewrite Hcont.
  rewrite (section_header_other c _ Hbracket).
  change (String c (key +:+ " =" +:+ after_delimiter u))
    with (String c key +:+ " =" +:+ after_delimiter u).
  rewrite (option_match_line (String c key) u Hname Hl).
  rewrite (rstrip_name (String c key) Hname).
  rewrite Hseen.
  unfold strip. rewrite Hl, Hr.
  unfold with_options, current_options.
  cbn [String.eqb Ascii.eqb Bool.eqb defaults sections elements_added cursect
       optname indent_level e].
  rewrite ?Hsect. rewrite orb_false_r. reflexivity.
Qed.

Lemma read_written (u p s : string) :
  plain u -> plain p -> plain s ->
  _read (written u p s)
  = Ok [("username", u); ("password", p); ("server", s)].
Proof.
  intros [Hu [_ [Hu1 Hu2]]] [Hp [_ [Hp1 Hp2]]] [Hs [_ [Hs1 Hs2]]].
  apply strip_fixed in Hu as [Hul Hur].
  apply strip_fixed in Hp as [Hpl Hpr].
  apply strip_fixed in Hs as [Hsl Hsr].
  unfold _read.
  rewrite (written_lines u p s Hu1 Hp1 Hs1 Hu2 Hp2 Hs2).
  cbn [read_lines].
  change (read_line fresh_reader "[DEFAULT]")
    with (Ok {| defaults := []; sections := []; elements_added := [];
                cursect := Some "DEFAULT"; optname := None;
                indent_level := 0; e := false |}).
  cbn [mbind result_bind].
  rewrite (read_line_option _ "u" "sername" u) by (assumption || reflexivity).
  cbn [mbind result_bind].
  rewrite (read_line_option _ "p" "assword" p) by (assumption || reflexivity).
  cbn [mbind result_bind].
  rewrite (read_line_option _ "s" "erver" s) by (assumption || reflexivity).
  cbn [mbind result_bind].
  match goal with
  | |- context [read_line ?r ""] =>
      change (read_line r "")
        with (Ok {| defaults := [("username", [u]); ("password", [p]);
                                 ("server", [s; ""])];
                    sections := [];
                    elements_added := [("DEFAULT", Some "server");
                                       ("DEFAULT", Some "password");
                                       ("DEFAULT", Some "username")];
                    cursect := Some "DEFAULT"; optname := Some "server";
                    indent_level := 0; e := false |})
  end.
  cbn [mbind result_bind e defaults join_lines map fst snd join].
  rewrite Hur, Hpr, rstrip_app. unfold nl. cbn [rstrip String.append is_space].
  rewrite Hsr. reflexivity.
Qed.

(** What [read_config] makes of stored options without [%]. *)
Lemma read_stored (u p s : string) :
  lacks "%" u -> lacks "%" p -> lacks "%" s ->
  (config ← Ok [("username", u); ("password", p); ("server", s)];
   u1 ← getitem config "Username";
   p1 ← getitem config "Password";
   s1 ← getitem config "Server";
   Ok {| username := u1; password := p1; server_url := s1 |})
  = Ok {| username := u; password := p; server_url := s |}.
Proof.
  intros Hu Hp Hs. cbn [mbind result_bind]. unfold getitem.
  change (optionxform "Username") with "username".
  change (optionxform "Password") with "password".
  change (optionxform "Server") with "server".
  cbn [dict_lookup String.eqb Ascii.eqb Bool.eqb].
  rewrite !before_get_lacks by assumption. reflexivity.
Qed.

(** C10, as amended.  For a login, a password and a host that are plain
    (no space at either end, no percent sign, no line break), creating the
    file and reading it back gives the credential that was entered. *)
Theorem credentials_round_trip (login pass host : string) :
  plain login -> plain pass -> plain host ->
  exists file,
    _create_config login pass host
    = Ok ({| username := login; password := pass; server_url := host |}, file)
    /\ read_config (Some file)
       = Ok {| username := login; password := pass; server_url := host |}.
Proof.
  intros Hu Hp Hs. exists (written login pass host).
  pose proof Hu as [_ [Hu1 _]]. pose proof Hp as [_ [Hp1 _]].
  pose proof Hs as [_ [Hs1 _]].
  split.
  - apply create_config_written; assumption.
  - unfold read_config. rewrite (read_written login pass host Hu Hp Hs).
    apply read_stored; assumption.
Qed.

Lemma credentials_round_trip_witness :
  exists file,
    _create_config "bob" "s3cret pass" "https://jira.example.com"
    = Ok ({| username := "bob"; password := "s3cret pass";
             server_url := "https://jira.example.com" |}, file)
    /\ read_config (Some file)
       = Ok {| username := "bob"; password := "s3cret pass";
               server_url := "https://jira.example.com" |}.
Proof.
  apply (credentials_round_trip "bob" "s3cret pass" "https://jira.example.com");
    repeat split; reflexivity.
Defined.

(** The claim without the restriction fails: a password with a lone
    percent sign is refused when the file is created, so that nothing is
    written; a doubled percent sign is read back as one; a password that
    ends in a space is read back without it. *)
Lemma credentials_not_always_restored :
  _create_config "bob" "100%" "https://jira.example.com" = Raise ValueError
  /\ (exists file,
        _create_config "bob" "100%%" "https://jira.example.com"
        = Ok ({| username := "bob"; password := "100%%";
                 server_url := "https://jira.example.com" |}, file)
        /\ read_config (Some file)
           = Ok {| username := "bob"; password := "100%";
                   server_url := "https://jira.example.com" |})
  /\ (exists file,
        _create_config "bob" "s3cret " "https://jira.example.com"
        = Ok ({| username := "bob"; password := "s3cret ";
                 server_url := "https://jira.example.com" |}, file)
        /\ read_config (Some file)
           = Ok {| username := "bob"; password := "s3cret";
                   server_url := "https://jira.example.com" |}).
Proof.
  split; [reflexivity|]. split; eexists; split; reflexivity.
Qed.

(** X17.  [init_config] with no file creates it and returns what was
    entered; with the file it left, it returns the same credential whatever
    is entered, and leaves the file as it is. *)
Lemma init_config_creates_then_reads (login pass host : string) :
  plain login -> plain pass -> plain host ->
  exists file,
    init_config None login pass host
    = Ok ({| username := login; password := pass; server_url := host |},
          Some file)
    /\ forall login' pass' host',
        init_config (Some file) login' pass' host'
        = Ok ({| username := login; password := pass; server_url := host |},
              Some file).
Proof.
  intros Hu Hp Hs. exists (written login pass host).
  pose proof Hu as [_ [Hu1 _]]. pose proof Hp as [_ [Hp1 _]].
  pose proof Hs as [_ [Hs1 _]].
  unfold init_config, read_config.
  rewrite (create_config_written login pass host Hu1 Hp1 Hs1).
  rewrite (read_written login pass host Hu Hp Hs).
  rewrite (read_stored login pass host Hu1 Hp1 Hs1).
  split; [reflexivity | intros; reflexivity].
Qed.

End Config.

(** ** Further behaviour of the two walks *)

Module ResolverEdges.
Import Resolver.

(** A cascading field whose parent option has no child (Jira sends
    [null] for it). *)
Definition parent_without_child : value :=
  VDict [("fields", VDict [("customfield_1",
    VDict [("value", VStr "Region"); ("child", VNone)])])].

(** The witnesses of X1, X2 and X3. *)
Lemma parent_and_child_witness :
  _get_value_for_cascading_select_field "fields.customfield_1.|"
    Cascading.region_east = Ok (VStr "Region-East").
Proof.
  apply (Cascading.parent_and_child "fields.customfield_1.|"
           Cascading.region_east ["fields"; "customfield_1"] "|" []
           [("value", VStr "Region"); ("child", VDict [("value", VStr "East")])]
           [("value", VStr "East")] "Region" "East");
    try reflexivity.
  repeat constructor.
Defined.

Lemma parent_only_witness :
  _get_value_for_cascading_select_field "fields.customfield_1.|"
    parent_without_child = Ok (VStr "Region").
Proof.
  apply (Cascading.parent_only "fields.customfield_1.|" parent_without_child
           ["fields"; "customfield_1"] "|" []
           [("value", VStr "Region"); ("child", VNone)]);
    try reflexivity.
  repeat constructor.
Defined.

Lemma cascading_absent_node_witness :
  _get_value_for_cascading_select_field "fields.customfield_1.|"
    Cascading.field_not_set = Raise AttributeError.
Proof.
  apply (Cascading.cascading_absent_node "fields.customfield_1.|"
           Cascading.field_not_set ["fields"; "customfield_1"] "|" []);
    try reflexivity.
  repeat constructor.
Defined.

Lemma cascading_loop_stops_at_marker (pre post1 post2 : list string)
    (part1 part2 : string) (nest : value) :
  contains "|" part1 = true -> contains "|" part2 = true ->
  cascading_loop (pre ++ part1 :: post1) nest
  = cascading_loop (pre ++ part2 :: post2) nest.
Proof.
  intros H1 H2. revert nest.
  induction pre as [|p pre IH]; intros nest; simpl.
  - rewrite H1, H2. reflexivity.
  - destruct (contains "|" p); [reflexivity|].
    destruct (py_get nest p) as [nest'|e]; simpl; [apply IH | reflexivity].
Qed.

(** X4.  The cascading walk ends at the first segment with the marker
    ([break]): what the marked segment says besides the marker, and every
    segment after it, has no effect on the result. *)
Theorem cascading_ignores_later_segments
    (path1 path2 : string) (issue : value) (pre post1 post2 : list string)
    (part1 part2 : string) :
  split "." path1 = pre ++ part1 :: post1 ->
  split "." path2 = pre ++ part2 :: post2 ->
  contains "|" part1 = true -> contains "|" part2 = true ->
  contains "|" path1 = true -> contains "|" path2 = true ->
  _get_value_for_cascading_select_field path1 issue
  = _get_value_for_cascading_select_field path2 issue.
Proof.
  intros Hs1 Hs2 Hp1 Hp2 Hm1 Hm2.
  unfold _get_value_for_cascading_select_field.
  rewrite Hm1, Hm2, Hs1, Hs2.
  rewrite (cascading_loop_stops_at_marker pre post1 post2 part1 part2 issue
             Hp1 Hp2).
  reflexivity.
Qed.

Lemma cascading_ignores_later_segments_witness :
  _get_value_for_cascading_select_field "fields.customfield_1.|"
    Cascading.region_east
  = _get_value_for_cascading_select_field
      "fields.customfield_1.x|y.child.value.more" Cascading.region_east.
Proof.
  apply (cascading_ignores_later_segments _ _ _ ["fields"; "customfield_1"]
           [] ["child"; "value"; "more"] "|" "x|y"); reflexivity.
Defined.

(** X5.  What a cascading path returns when it returns: the [value] of the
    node at the marked segment as it is (a string or not, [None] when the
    node has none), or two strings joined by "-".  The empty string of the
    final [else] is never what it returns by default. *)
Theorem cascading_result_shape (field_path : string) (issue v : value) :
  contains "|" field_path = true ->
  _get_value_for_cascading_select_field field_path issue = Ok v ->
  cascading_loop (split "." field_path) issue = Ok [v]
  \/ exists parent child,
       cascading_loop (split "." field_path) issue
       = Ok [VStr parent; VStr child]
       /\ v = VStr (parent +:+ "-" +:+ child).
Proof.
  intros Hmark H. unfold _get_value_for_cascading_select_field in H.
  rewrite Hmark in H. simpl in H.
  destruct (cascading_loop (split "." field_path) issue) as [values|e] eqn:Hloop;
    simpl in H; [|discriminate].
  pose proof (Cascading.cascading_default_unreachable field_path issue values
                Hmark Hloop) as Hne.
  destruct values as [|a [|b [|c values]]].
  - congruence.
  - injection H as <-. left. reflexivity.
  - right. unfold str_join in H. simpl in H.
    destruct a as [| | | |sa| |]; try discriminate.
    destruct b as [| | | |sb| |]; try discriminate.
    simpl in H. injection H as <-. exists sa, sb. split; reflexivity.
  - injection H as <-. exfalso.
    assert (Hex : Exists (fun p => contains "|" p = true) (split "." field_path)).
    { apply Cascading.marker_in_some_segment; [discriminate | exact Hmark]. }
    destruct (Cascading.cascading_loop_values _ _ _ Hex Hloop) as [Hl|Hl];
      discriminate.
Qed.

Lemma cascading_result_shape_witness :
  cascading_loop (split "." "fields.customfield_1.|") Cascading.neither_populated
  = Ok [VNone]
  \/ exists parent child,
       cascading_loop (split "." "fields.customfield_1.|")
         Cascading.neither_populated = Ok [VStr parent; VStr child]
       /\ VNone = VStr (parent +:+ "-" +:+ child).
Proof.
  apply (cascading_result_shape "fields.customfield_1.|"
           Cascading.neither_populated VNone); reflexivity.
Defined.

(** *** The multiple-choice walk *)

(** A document whose list sits under empty keys, where the path runs out
    just as the list is reached. *)
Definition list_under_empty_keys : value :=
  VDict [("a", VDict [("", VDict [("", VList [VDict [("value", VStr "x")]])])])].

(** Components as Jira sends them: named, without a [value] attribute. *)
Definition named_components : value :=
  VDict [("fields", VDict [("components",
    VList [VDict [("name", VStr "UI")]; VDict [("name", VStr "Backend")]])])].

(** Labels as Jira sends them: a list of plain strings. *)
Definition plain_labels : value :=
  VDict [("fields", VDict [("labels", VList [VStr "ui"; VStr "urgent"])])].

(** A field that holds a string where an object is expected. *)
Definition string_field : value :=
  VDict [("fields", VStr "none")].

(** X6.  Once the walk stands on a list it reads the [value] attribute of
    the elements, whatever the rest of the path says: two paths that agree
    up to the list give the same result. *)
Theorem multiple_choice_ignores_later_segments
    (path1 path2 : string) (issue : value) (pre post1 post2 : list string)
    (part1 part2 : string) (items : list value) :
  contains ".." path1 = true -> contains ".." path2 = true ->
  split "." path1 = pre ++ part1 :: post1 ->
  split "." path2 = pre ++ part2 :: post2 ->
  MultipleChoice.descend pre issue = Some (VList items) ->
  _get_value_for_multiple_choice_field path1 issue
  = _get_value_for_multiple_choice_field path2 issue.
Proof.
  intros Hm1 Hm2 Hs1 Hs2 Hwalk.
  unfold _get_value_for_multiple_choice_field.
  rewrite Hm1, Hm2, Hs1, Hs2.
  rewrite !(MultipleChoice.multi_loop_descend pre _ issue _ Hwalk).
  reflexivity.
Qed.

Lemma multiple_choice_ignores_later_segments_witness :
  _get_value_for_multiple_choice_field "fields.components..value"
    MultipleChoice.components_issue
  = _get_value_for_multiple_choice_field "fields.components..name.first"
      MultipleChoice.components_issue.
Proof.
  apply (multiple_choice_ignores_later_segments _ _ _ ["fields"; "components"]
           ["value"] ["name"; "first"] "" ""
           [VDict [("value", VStr "UI")]; VDict [("value", VStr "Backend")]]);
    reflexivity.
Defined.

Lemma as_strings_not_all (values : list value) :
  Exists (fun v => forall s, v <> VStr s) values ->
  as_strings values = Raise TypeError.
Proof.
  induction 1 as [v values Hv|v values _ IH]; simpl.
  - destruct v; try reflexivity. exfalso. exact (Hv s eq_refl).
  - destruct v; try reflexivity. rewrite IH. reflexivity.
Qed.

(** X7.  When every element of the list is an object but some element has
    no string under [value] (no [value] at all, or a number, a list, an
    object), ['|'.join] raises [TypeError]: there is no result, not even
    for the elements that have one. *)
Theorem multiple_choice_value_not_string
    (field_path : string) (issue : value) (pre post : list string)
    (part : string) (items values : list value) :
  contains ".." field_path = true ->
  split "." field_path = pre ++ part :: post ->
  MultipleChoice.descend pre issue = Some (VList items) ->
  for_each (fun item => py_get item "value") items = Ok values ->
  Exists (fun v => forall s, v <> VStr s) values ->
  _get_value_for_multiple_choice_field field_path issue = Raise TypeError.
Proof.
  intros Hmark Hsplit Hwalk Hvalues Hbad.
  unfold _get_value_for_multiple_choice_field.
  rewrite Hmark, Hsplit. simpl negb. cbv iota.
  rewrite (MultipleChoice.multi_loop_descend pre _ issue _ Hwalk).
  simpl. rewrite Hvalues. simpl.
  unfold str_join. rewrite (as_strings_not_all values Hbad). reflexivity.
Qed.

Lemma multiple_choice_value_not_string_witness :
  _get_value_for_multiple_choice_field "fields.components..value"
    named_components = Raise TypeError.
Proof.
  apply (multiple_choice_value_not_string _ _ ["fields"; "components"] ["value"]
           "" [VDict [("name", VStr "UI")]; VDict [("name", VStr "Backend")]]
           [VNone; VNone]); try reflexivity.
  apply Exists_cons_hd. intros s. discriminate.
Defined.

(** X8.  An element of the list that is not an object (a string, a number,
    [None], a list), all elements before it being objects, makes the
    comprehension raise [AttributeError]. *)
Theorem multiple_choice_element_not_object
    (field_path : string) (issue : value) (pre post : list string)
    (part : string) (before after : list value) (element : value) :
  contains ".." field_path = true ->
  split "." field_path = pre ++ part :: post ->
  MultipleChoice.descend pre issue
  = Some (VList (before ++ element :: after)) ->
  Forall (fun item => exists kvs, item = VDict kvs) before ->
  (forall kvs, element <> VDict kvs) ->
  _get_value_for_multiple_choice_field field_path issue = Raise AttributeError.
Proof.
  intros Hmark Hsplit Hwalk Hbefore Helement.
  unfold _get_value_for_multiple_choice_field.
  rewrite Hmark, Hsplit. simpl negb. cbv iota.
  rewrite (MultipleChoice.multi_loop_descend pre _ issue _ Hwalk).
  simpl.
  assert (Hpre : exists vs,
            for_each (fun item => py_get item "value") before = Ok vs).
  { clear -Hbefore. induction Hbefore as [|item before [kvs ->] _ [vs IH]].
    - exists []. reflexivity.
    - eexists. simpl. rewrite IH. reflexivity. }
  destruct Hpre as [vs Hvs].
  rewrite (FieldValues.for_each_raises_at _ before after element vs
             AttributeError Hvs).
  - reflexivity.
  - destruct element; try reflexivity. exfalso. exact (Helement kvs eq_refl).
Qed.

Lemma multiple_choice_element_not_object_witness :
  _get_value_for_multiple_choice_field "fields.labels..value" plain_labels
  = Raise AttributeError.
Proof.
  apply (multiple_choice_element_not_object _ _ ["fields"; "labels"] ["value"]
           "" [] [VStr "urgent"] (VStr "ui")); try reflexivity.
  - constructor.
  - intros kvs. discriminate.
Defined.

(** X9.  A node on the way that is true and is neither a list nor an
    object (a non-empty string, a non-zero number, [True]) has no [get]:
    the walk raises [AttributeError]; only an empty or absent node gives
    the empty string. *)
Theorem multiple_choice_scalar_node_raises
    (field_path : string) (issue : value) (pre post : list string)
    (part : string) (node : value) :
  contains ".." field_path = true ->
  split "." field_path = pre ++ part :: post ->
  MultipleChoice.descend pre issue = Some node ->
  truthy node = true ->
  (forall items, node <> VList items) ->
  (forall kvs, node <> VDict kvs) ->
  _get_value_for_multiple_choice_field field_path issue = Raise AttributeError.
Proof.
  intros Hmark Hsplit Hwalk Htrue Hlist Hdict.
  unfold _get_value_for_multiple_choice_field.
  rewrite Hmark, Hsplit. simpl negb. cbv iota.
  rewrite (MultipleChoice.multi_loop_descend pre _ issue _ Hwalk).
  destruct node as [|b|z|f|s|items|kvs]; cbn [multiple_choice_loop];
    try (rewrite Htrue; reflexivity).
  - exfalso. exact (Hlist items eq_refl).
  - exfalso. exact (Hdict kvs eq_refl).
Qed.

Lemma multiple_choice_scalar_node_raises_witness :
  _get_value_for_multiple_choice_field "fields.components..value" string_field
  = Raise AttributeError.
Proof.
  apply (multiple_choice_scalar_node_raises _ _ ["fields"] [""; "value"]
           "components" (VStr "none")); try reflexivity;
    intros x; discriminate.
Defined.

(** X10.  The test for a list is made before a segment is read, never
    after the last one: when the whole path leads through non-empty
    objects, the result is the empty string, also when the node the path
    ends on is a list with values. *)
Theorem multiple_choice_list_after_last_segment
    (field_path : string) (issue node : value) :
  contains ".." field_path = true ->
  MultipleChoice.descend (split "." field_path) issue = Some node ->
  _get_value_for_multiple_choice_field field_path issue = Ok (VStr "").
Proof.
  intros Hmark Hwalk.
  unfold _get_value_for_multiple_choice_field.
  rewrite Hmark. simpl negb. cbv iota.
  rewrite <- (app_nil_r (split "." field_path)).
  rewrite (MultipleChoice.multi_loop_descend _ [] issue node Hwalk).
  reflexivity.
Qed.

Lemma multiple_choice_list_after_last_segment_witness :
  MultipleChoice.descend (split "." "a..") list_under_empty_keys
  = Some (VList [VDict [("value", VStr "x")]])
  /\ _get_value_for_multiple_choice_field "a.." list_under_empty_keys
     = Ok (VStr "").
Proof.
  split; [reflexivity|].
  apply (multiple_choice_list_after_last_segment "a.." list_under_empty_keys
           (VList [VDict [("value", VStr "x")]])); reflexivity.
Defined.

(** X11.  Whatever the path and the document, the multiple-choice strategy
    returns a string when it returns: never [None], never a value of the
    document as it is. *)
Theorem multiple_choice_returns_string
    (field_path : string) (issue v : value) :
  _get_value_for_multiple_choice_field field_path issue = Ok v ->
  exists s, v = VStr s.
Proof.
  unfold _get_value_for_multiple_choice_field.
  destruct (negb (contains ".." field_path)).
  { intros [= <-]. eexists. reflexivity. }
  destruct (multiple_choice_loop (split "." field_path) issue)
    as [[values|]|e]; simpl.
  - unfold str_join. destruct (as_strings values); simpl;
      [intros [= <-]; eexists; reflexivity | discriminate].
  - intros [= <-]. eexists. reflexivity.
  - discriminate.
Qed.

Lemma multiple_choice_returns_string_witness :
  exists s, VStr "UI|Backend" = VStr s.
Proof.
  apply (multiple_choice_returns_string "fields.components..value"
           MultipleChoice.components_issue). reflexivity.
Defined.

(** *** The dispatch *)

(** X12.  The flattened document is read for scalar paths only: a request
    whose names all have a path with a marker (or no path at all) gets the
    same answer whatever the flattener returns. *)
Theorem marked_fields_ignore_flattened
    (flatten1 flatten2 : dict -> dict) (path_to_fields : list (string * string))
    (issue : dict) (fields : list string) :
  Forall (fun field =>
            forall field_path,
              dict_lookup path_to_fields field = Some field_path ->
              contains ".." field_path || contains "|" field_path = true)
         fields ->
  get_field_values flatten1 path_to_fields issue fields
  = get_field_values flatten2 path_to_fields issue fields.
Proof.
  intros Hfields. unfold get_field_values.
  induction Hfields as [|field fields Hfield _ IH]; simpl; [reflexivity|].
  rewrite IH.
  assert (Hturn : resolve path_to_fields issue (flatten1 issue) field
                  = resolve path_to_fields issue (flatten2 issue) field).
  { unfold resolve.
    destruct (dict_lookup path_to_fields field) as [p|]; [|reflexivity].
    specialize (Hfield p eq_refl).
    destruct (contains ".." p); [reflexivity|].
    simpl in Hfield. rewrite Hfield. reflexivity. }
  rewrite Hturn. reflexivity.
Qed.

Lemma marked_fields_ignore_flattened_witness :
  get_field_values Flattener.flatten FieldValues.path_table
    FieldValues.sample_issue ["components"; "City"]
  = get_field_values (fun _ => []) FieldValues.path_table
      FieldValues.sample_issue ["components"; "City"].
Proof.
  apply (marked_fields_ignore_flattened Flattener.flatten (fun _ => [])).
  repeat constructor; intros p [= <-]; reflexivity.
Defined.

End ResolverEdges.

(** ** Further behaviour of the credential file *)

Module ConfigEdges.
Import Config.

#[local] Arguments String.append !s1 s2 : simpl nomatch.

(** A line [_read] passes over before any section: blank, or a comment. *)
Definition skipped (line : string) : bool :=
  let stripped := strip line in
  starts_with "#" stripped || starts_with ";" stripped || String.eqb stripped "".

(** A value with one percent sign that starts no reference. *)
Definition lone_percent (v : string) : Prop :=
  exists a b, v = a +:+ "%" +:+ b
    /\ lacks "%" a /\ lacks "%" b /\ starts_with "(" b = false.

(** A percent sign entered twice, as the ini syntax wants it. *)
Definition escape (s : string) : string := replace_char "%" "%%" s.

(** No space at either end and no line break. *)
Definition trimmed (s : string) : Prop :=
  strip s = s /\ lacks "010" s /\ lacks "013" s.

(** The [while rest:] loop of [_interpolate_some] on its own, [deeper]
    being the call one level down. *)
Definition scan_with (deeper : string -> result string)
    (map : list (string * string)) : nat -> string -> result string :=
  fix scan (fuel : nat) (rest : string) {struct fuel} : result string :=
    match fuel with
    | 0 => Ok EmptyString
    | S fuel' =>
        let (before, from) := until_percent rest in
        match from with
        | EmptyString => Ok before
        | String _ (String "%" rest') =>
            tail ← scan fuel' rest';
            Ok (before +:+ "%" +:+ tail)
        | String _ (String "(" _) =>
            match reference from with
            | None => Raise InterpolationSyntaxError
            | Some (name, rest') =>
                match dict_lookup map (optionxform name) with
                | None => Raise InterpolationMissingOptionError
                | Some v =>
                    expansion ←
                      (if contains "%" v then deeper v else Ok v);
                    tail ← scan fuel' rest';
                    Ok (before +:+ expansion +:+ tail)
                end
            end
        | String _ _ => Raise InterpolationSyntaxError
        end
    end.

Lemma interpolate_scan (levels : nat) (map : list (string * string))
    (rest : string) :
  interpolate (S levels) map rest
  = scan_with (interpolate levels map) map (S (String.length rest)) rest.
Proof. reflexivity. Qed.

(** *** Files without the options *)

Lemma read_lines_skipped (lines : list string) :
  Forall (fun line => skipped line = true) lines ->
  read_lines fresh_reader lines = Ok fresh_reader.
Proof.
  induction 1 as [|line lines Hline _ IH]; simpl; [reflexivity|].
  assert (Hstep : read_line fresh_reader line = Ok fresh_reader).
  { unfold read_line. unfold skipped in Hline.
    destruct (starts_with "#" (strip line) || starts_with ";" (strip line));
      [reflexivity|].
    simpl in Hline. rewrite Hline. reflexivity. }
  rewrite Hstep. exact IH.
Qed.

(** X18.  A credentials file with nothing but blank lines and comments
    (an empty file among them), and likewise no file at all, makes
    [read_config] raise [KeyError] at [config['DEFAULT']['Username']]: the
    file is not created anew. *)
Theorem read_config_without_options (file : option string) :
  (forall text, file = Some text ->
     Forall (fun line => skipped line = true)
            (file_lines (universal_newlines text))) ->
  read_config file = Raise KeyError.
Proof.
  intros H. unfold read_config. destruct file as [text|]; [|reflexivity].
  unfold _read. rewrite (read_lines_skipped _ (H text eq_refl)). reflexivity.
Qed.

Lemma read_config_without_options_witness :
  read_config (Some ("# credentials" +:+ nl +:+ nl +:+ "  ; none yet" +:+ nl))
  = Raise KeyError.
Proof.
  apply read_config_without_options.
  intros text [= <-]. repeat constructor.
Defined.

(** X19.  A file whose first line that counts (neither blank nor comment)
    is not a section header makes [read_config] raise
    [MissingSectionHeaderError], whatever follows. *)
Theorem read_config_without_header
    (text : string) (skipped_lines rest : list string) (line : string) :
  file_lines (universal_newlines text) = skipped_lines ++ line :: rest ->
  Forall (fun l => skipped l = true) skipped_lines ->
  skipped line = false ->
  section_header (strip line) = None ->
  read_config (Some text) = Raise MissingSectionHeaderError.
Proof.
  intros Hlines Hskipped Hline Hheader.
  unfold read_config, _read. rewrite Hlines.
  assert (Hread : read_lines fresh_reader (skipped_lines ++ line :: rest)
                  = Raise MissingSectionHeaderError).
  { clear Hlines. induction Hskipped as [|l ls Hl _ IH]; simpl.
    - unfold read_line. unfold skipped in Hline.
      apply orb_false_iff in Hline as [Hcomment Hempty].
      rewrite Hcomment, Hempty. cbn [cursect optname fresh_reader].
      rewrite Hheader. reflexivity.
    - assert (Hstep : read_line fresh_reader l = Ok fresh_reader).
      { pose proof (read_lines_skipped [l]) as H1. simpl in H1.
        destruct (read_line fresh_reader l) as [r|e];
          [|specialize (H1 ltac:(repeat constructor; exact Hl)); discriminate].
        specialize (H1 ltac:(repeat constructor; exact Hl)).
        simpl in H1. exact H1. }
      rewrite Hstep. exact IH. }
  rewrite Hread. reflexivity.
Qed.

Lemma read_config_without_header_witness :
  read_config (Some ("# mine" +:+ nl +:+ "username = bob" +:+ nl
                     +:+ "password = s3cret" +:+ nl))
  = Raise MissingSectionHeaderError.
Proof.
  apply (read_config_without_header _ ["# mine"]
           ["password = s3cret"] "username = bob"); try reflexivity.
  repeat constructor.
Defined.

(** *** Percent signs *)

Lemma contains_char_app (c : ascii) (a b : string) :
  contains (String c EmptyString) (a +:+ String c b) = true.
Proof.
  induction a as [|x a IH].
  - simpl (EmptyString +:+ _). rewrite contains_char_cons, Ascii.eqb_refl.
    reflexivity.
  - change (String x a +:+ String c b) with (String x (a +:+ String c b)).
    rewrite contains_char_cons, IH. apply orb_true_r.
Qed.

Lemma drop_escaped_app (a rest : string) :
  lacks "%" a -> drop_escaped (a +:+ rest) = a +:+ drop_escaped rest.
Proof.
  induction a as [|x a IH]; intros H; [reflexivity|].
  apply lacks_cons in H as [Hx Ha].
  change (String x a +:+ rest) with (String x (a +:+ rest)).
  change (String x a +:+ drop_escaped rest)
    with (String x (a +:+ drop_escaped rest)).
  rewrite <- (IH Ha).
  destruct (ascii_dec x "%") as [->|Hne]; [discriminate|].
  destruct x as [[] [] [] [] [] [] [] []]; try reflexivity. congruence.
Qed.

Lemma reference_other (x : ascii) (s : string) :
  Ascii.eqb x "%" = false -> reference (String x s) = None.
Proof.
  intros H. destruct x as [[] [] [] [] [] [] [] []]; try reflexivity.
  discriminate.
Qed.

Lemma reference_no_paren (b : string) :
  starts_with "(" b = false -> reference (String "%" b) = None.
Proof.
  destruct b as [|c b]; [reflexivity|]. simpl. intros H.
  destruct c as [[] [] [] [] [] [] [] []]; try reflexivity. discriminate.
Qed.

Lemma drop_references_app (fuel : nat) (a rest : string) :
  lacks "%" a ->
  drop_references (String.length a + fuel) (a +:+ rest)
  = a +:+ drop_references fuel rest.
Proof.
  induction a as [|x a IH]; intros H; [reflexivity|].
  apply lacks_cons in H as [Hx Ha].
  change (String x a +:+ rest) with (String x (a +:+ rest)).
  simpl String.length. simpl plus. cbn [drop_references].
  rewrite (reference_other x _ Hx), (IH Ha). reflexivity.
Qed.

Lemma length_append (a b : string) :
  String.length (a +:+ b) = String.length a + String.length b.
Proof. induction a as [|x a IH]; simpl; [reflexivity | rewrite IH; reflexivity]. Qed.

Lemma before_set_lone_percent (v : string) :
  lone_percent v -> before_set v = Raise ValueError.
Proof.
  intros [a [b [-> [Ha [Hb Hparen]]]]]. unfold before_set.
  assert (Hfirst : drop_escaped (a +:+ "%" +:+ b) = a +:+ String "%" b).
  { rewrite (drop_escaped_app a _ Ha). f_equal.
    change ("%" +:+ b) with (String "%" b).
    destruct b as [|c b]; [reflexivity|].
    pose proof Hb as Hb'. apply lacks_cons in Hb' as [Hc Hrest].
    pose proof (drop_escaped_lacks b Hrest) as Hd.
    destruct c as [[] [] [] [] [] [] [] []]; try discriminate;
      cbn [drop_escaped]; rewrite Hd; reflexivity. }
  rewrite Hfirst.
  rewrite length_append.
  rewrite (drop_references_app _ a (String "%" b) Ha).
  cbn [String.length drop_references].
  rewrite (reference_no_paren b Hparen).
  rewrite (drop_references_lacks _ b Hb).
  rewrite contains_char_app. reflexivity.
Qed.

Lemma set_option_outcome (d : list (string * string)) (option value : string) :
  set_option d option value = Ok (d ++ [(optionxform option, value)])
  \/ set_option d option value = Raise ValueError.
Proof.
  unfold set_option. destruct (String.eqb value ""); [left; reflexivity|].
  unfold before_set.
  destruct (contains "%" _); [right | left]; reflexivity.
Qed.

Lemma set_option_lone_percent (d : list (string * string))
    (option value : string) :
  lone_percent value -> set_option d option value = Raise ValueError.
Proof.
  intros H. unfold set_option.
  destruct (String.eqb value "") eqn:Hempty.
  - apply String.eqb_eq in Hempty. subst value.
    destruct H as [a [b [Heq _]]]. destruct a; discriminate.
  - rewrite (before_set_lone_percent value H). reflexivity.
Qed.

(** X20.  A login, password or host with a percent sign that is neither
    doubled nor the start of a reference is refused: [_create_config]
    raises [ValueError] from [config['DEFAULT'] = ...], before the file is
    opened, so no file is written. *)
Theorem create_config_refuses_lone_percent (login pass host : string) :
  lone_percent login \/ lone_percent pass \/ lone_percent host ->
  _create_config login pass host = Raise ValueError.
Proof.
  intros H. unfold _create_config. cbn [read_dict dict_lookup].
  destruct (set_option_outcome [] "Username" login) as [Hu|Hu].
  2:{ rewrite Hu. reflexivity. }
  destruct H as [H|H].
  { rewrite (set_option_lone_percent _ _ _ H). reflexivity. }
  rewrite Hu.
  change (optionxform "Username") with "username".
  change (optionxform "Password") with "password".
  change (optionxform "Server") with "server".
  cbn [mbind result_bind app dict_lookup String.eqb Ascii.eqb Bool.eqb].
  destruct (set_option_outcome [("username", login)] "Password" pass)
    as [Hp|Hp].
  2:{ rewrite Hp. reflexivity. }
  destruct H as [H|H].
  { rewrite (set_option_lone_percent _ _ _ H). reflexivity. }
  rewrite Hp.
  change (optionxform "Password") with "password".
  cbn [mbind result_bind app dict_lookup String.eqb Ascii.eqb Bool.eqb].
  rewrite (set_option_lone_percent _ _ _ H). reflexivity.
Qed.

Lemma create_config_refuses_lone_percent_witness :
  _create_config "bob" "50%off" "https://jira.example.com" = Raise ValueError.
Proof.
  apply create_config_refuses_lone_percent. right. left.
  exists "50", "off". repeat split; reflexivity.
Defined.

(** *** Doubled percent signs *)

Lemma escape_cons_percent (a : string) :
  escape (String "%" a) = String "%" (String "%" (escape a)).
Proof. reflexivity. Qed.

Lemma escape_cons_other (x : ascii) (a : string) :
  Ascii.eqb x "%" = false -> escape (String x a) = String x (escape a).
Proof. intros H. unfold escape. simpl. rewrite H. reflexivity. Qed.

Lemma escape_lacks (a : string) : lacks "%" a -> escape a = a.
Proof. apply replace_char_lacks. Qed.

Lemma escape_app (a b : string) : escape (a +:+ b) = escape a +:+ escape b.
Proof.
  induction a as [|x a IH]; [reflexivity|].
  change (String x a +:+ b) with (String x (a +:+ b)).
  destruct (Ascii.eqb x "%") eqn:Hx.
  - apply Ascii.eqb_eq in Hx. subst x.
    rewrite !escape_cons_percent, IH. reflexivity.
  - rewrite !(escape_cons_other x _ Hx), IH. reflexivity.
Qed.

Lemma escape_keeps_lacks (c : ascii) (a : string) :
  Ascii.eqb "%" c = false -> lacks c a -> lacks c (escape a).
Proof.
  intros Hc. induction a as [|x a IH]; intros H; [exact H|].
  apply lacks_cons in H as [Hx Ha]. specialize (IH Ha).
  destruct (Ascii.eqb x "%") eqn:Hp.
  - apply Ascii.eqb_eq in Hp. subst x. rewrite escape_cons_percent.
    apply lacks_cons. split; [exact Hc|]. apply lacks_cons. split; assumption.
  - rewrite (escape_cons_other x _ Hp). apply lacks_cons. split; assumption.
Qed.

Lemma escape_length (a : string) :
  String.length a <= String.length (escape a).
Proof.
  induction a as [|x a IH]; [reflexivity|].
  destruct (Ascii.eqb x "%") eqn:Hp.
  - apply Ascii.eqb_eq in Hp. subst x. rewrite escape_cons_percent.
    simpl. lia.
  - rewrite (escape_cons_other x _ Hp). simpl. lia.
Qed.

Lemma space_is_no_percent (x : ascii) :
  is_space x = true -> Ascii.eqb x "%" = false.
Proof.
  intros H. destruct (Ascii.eqb x "%") eqn:Hp; [|reflexivity].
  apply Ascii.eqb_eq in Hp. subst x. discriminate.
Qed.

Lemma lstrip_escape (a : string) : lstrip (escape a) = escape (lstrip a).
Proof.
  induction a as [|x a IH]; [reflexivity|].
  destruct (Ascii.eqb x "%") eqn:Hp.
  - apply Ascii.eqb_eq in Hp. subst x. reflexivity.
  - rewrite (escape_cons_other x _ Hp). simpl.
    destruct (is_space x); [exact IH|].
    rewrite (escape_cons_other x _ Hp). reflexivity.
Qed.

Lemma escape_empty (a : string) : escape a = EmptyString -> a = EmptyString.
Proof.
  destruct a as [|x a]; [reflexivity|].
  destruct (Ascii.eqb x "%") eqn:Hp.
  - apply Ascii.eqb_eq in Hp. subst x. discriminate.
  - rewrite (escape_cons_other x _ Hp). discriminate.
Qed.

Lemma rstrip_cons (x : ascii) (a : string) :
  rstrip (String x a)
  = match rstrip a with
    | EmptyString => if is_space x then EmptyString else String x EmptyString
    | r => String x r
    end.
Proof. reflexivity. Qed.

Lemma rstrip_escape (a : string) : rstrip (escape a) = escape (rstrip a).
Proof.
  induction a as [|x a IH]; [reflexivity|].
  destruct (Ascii.eqb x "%") eqn:Hp.
  - apply Ascii.eqb_eq in Hp. subst x.
    rewrite escape_cons_percent, !rstrip_cons, IH.
    destruct (rstrip a) as [|y r] eqn:Hr; [reflexivity|].
    destruct (escape (String y r)) as [|z e] eqn:He.
    + apply escape_empty in He. discriminate.
    + rewrite escape_cons_percent, He. reflexivity.
  - rewrite (escape_cons_other x _ Hp), !rstrip_cons, IH.
    destruct (rstrip a) as [|y r] eqn:Hr.
    + simpl. destruct (is_space x); [reflexivity|].
      rewrite (escape_cons_other x _ Hp). reflexivity.
    + destruct (escape (String y r)) as [|z e] eqn:He.
      * apply escape_empty in He. discriminate.
      * rewrite (escape_cons_other x _ Hp), He. reflexivity.
Qed.

Lemma trimmed_escape (a : string) : trimmed a -> trimmed (escape a).
Proof.
  intros [Hstrip [Hlf Hcr]]. split; [|split].
  - unfold strip in *. rewrite lstrip_escape, rstrip_escape, Hstrip.
    reflexivity.
  - apply escape_keeps_lacks; [reflexivity | exact Hlf].
  - apply escape_keeps_lacks; [reflexivity | exact Hcr].
Qed.

Lemma drop_escaped_escape (a : string) : lacks "%" (drop_escaped (escape a)).
Proof.
  induction a as [|x a IH]; [reflexivity|].
  destruct (Ascii.eqb x "%") eqn:Hp.
  - apply Ascii.eqb_eq in Hp. subst x. rewrite escape_cons_percent. exact IH.
  - rewrite (escape_cons_other x _ Hp).
    assert (Hd : drop_escaped (String x (escape a))
                 = String x (drop_escaped (escape a))).
    { destruct x as [[] [] [] [] [] [] [] []]; try reflexivity. discriminate. }
    rewrite Hd. apply lacks_cons. split; assumption.
Qed.

Lemma set_option_escape (d : list (string * string)) (option a : string) :
  set_option d option (escape a)
  = Ok (d ++ [(optionxform option, escape a)]).
Proof.
  unfold set_option. destruct (String.eqb (escape a) ""); [reflexivity|].
  unfold before_set.
  rewrite (drop_references_lacks _ _ (drop_escaped_escape a)).
  pose proof (drop_escaped_escape a) as H. unfold lacks in H. rewrite H.
  reflexivity.
Qed.

Lemma create_config_escaped (u p s : string) :
  _create_config (escape u) (escape p) (escape s)
  = Ok ({| username := escape u; password := escape p;
           server_url := escape s |},
        written (escape u) (escape p) (escape s)).
Proof.
  unfold _create_config. cbn [read_dict dict_lookup].
  rewrite (set_option_escape [] "Username" u).
  change (optionxform "Username") with "username".
  change (optionxform "Password") with "password".
  change (optionxform "Server") with "server".
  cbn [mbind result_bind app dict_lookup String.eqb Ascii.eqb Bool.eqb].
  rewrite (set_option_escape _ "Password" p).
  change (optionxform "Password") with "password".
  cbn [mbind result_bind app dict_lookup String.eqb Ascii.eqb Bool.eqb].
  rewrite (set_option_escape _ "Server" s).
  reflexivity.
Qed.

(** The options [_read] finds in the file written for three trimmed
    values, percent signs or not. *)
Lemma read_written_trimmed (u p s : string) :
  trimmed u -> trimmed p -> trimmed s ->
  _read (written u p s)
  = Ok [("username", u); ("password", p); ("server", s)].
Proof.
  intros [Hu [Hu1 Hu2]] [Hp [Hp1 Hp2]] [Hs [Hs1 Hs2]].
  apply strip_fixed in Hu as [Hul Hur].
  apply strip_fixed in Hp as [Hpl Hpr].
  apply strip_fixed in Hs as [Hsl Hsr].
  unfold _read.
  rewrite (written_lines u p s Hu1 Hp1 Hs1 Hu2 Hp2 Hs2).
  cbn [read_lines].
  change (read_line fresh_reader "[DEFAULT]")
    with (Ok {| defaults := []; sections := []; elements_added := [];
                cursect := Some "DEFAULT"; optname := None;
                indent_level := 0; e := false |}).
  cbn [mbind result_bind].
  rewrite (read_line_option _ "u" "sername" u) by (assumption || reflexivity).
  cbn [mbind result_bind].
  rewrite (read_line_option _ "p" "assword" p) by (assumption || reflexivity).
  cbn [mbind result_bind].
  rewrite (read_line_option _ "s" "erver" s) by (assumption || reflexivity).
  cbn [mbind result_bind].
  match goal with
  | |- context [read_line ?r ""] =>
      change (read_line r "")
        with (Ok {| defaults := [("username", [u]); ("password", [p]);
                                 ("server", [s; ""])];
                    sections := [];
                    elements_added := [("DEFAULT", Some "server");
                                       ("DEFAULT", Some "password");
                                       ("DEFAULT", Some "username")];
                    cursect := Some "DEFAULT"; optname := Some "server";
                    indent_level := 0; e := false |})
  end.
  cbn [mbind result_bind e defaults join_lines map fst snd join].
  rewrite Hur, Hpr, rstrip_app. unfold nl. cbn [rstrip String.append is_space].
  rewrite Hsr. reflexivity.
Qed.

Lemma until_percent_app (pre rest : string) :
  lacks "%" pre ->
  until_percent (pre +:+ String "%" rest) = (pre, String "%" rest).
Proof.
  induction pre as [|x pre IH]; intros H; [reflexivity|].
  apply lacks_cons in H as [Hx Hpre].
  change (String x pre +:+ String "%" rest)
    with (String x (pre +:+ String "%" rest)).
  cbn [until_percent]. rewrite (IH Hpre).
  destruct x as [[] [] [] [] [] [] [] []]; try reflexivity. discriminate.
Qed.

Lemma first_percent (a : string) :
  lacks "%" a
  \/ exists pre rest, a = pre +:+ String "%" rest /\ lacks "%" pre.
Proof.
  induction a as [|x a [IH|[pre [rest [-> Hpre]]]]].
  - left. reflexivity.
  - destruct (Ascii.eqb x "%") eqn:Hx.
    + apply Ascii.eqb_eq in Hx. subst x. right.
      exists EmptyString, a. split; reflexivity.
    + left. apply lacks_cons. split; assumption.
  - right. destruct (Ascii.eqb x "%") eqn:Hx.
    + apply Ascii.eqb_eq in Hx. subst x.
      exists EmptyString, (pre +:+ String "%" rest). split; reflexivity.
    + exists (String x pre), rest. split; [reflexivity|].
      apply lacks_cons. split; assumption.
Qed.

(** Interpolating a value whose percent signs are all doubled undoes the
    doubling. *)
Lemma scan_escape (deeper : string -> result string)
    (map : list (string * string)) (fuel : nat) (a : string) :
  String.length a < fuel ->
  scan_with deeper map fuel (escape a) = Ok a.
Proof.
  revert a. induction fuel as [|fuel IH]; intros a Hlen; [lia|].
  destruct (first_percent a) as [Ha|[pre [rest [-> Hpre]]]].
  - rewrite (escape_lacks a Ha). cbn [scan_with].
    rewrite (until_percent_lacks a Ha). reflexivity.
  - rewrite escape_app, (escape_lacks pre Hpre), escape_cons_percent.
    cbn [scan_with]. rewrite (until_percent_app pre _ Hpre).
    rewrite length_append in Hlen. simpl in Hlen.
    rewrite (IH rest) by lia. reflexivity.
Qed.

Lemma before_get_escape (map : list (string * string)) (a : string) :
  before_get map (escape a) = Ok a.
Proof.
  unfold before_get. rewrite interpolate_scan.
  apply scan_escape. pose proof (escape_length a). lia.
Qed.

(** X21.  Percent signs entered doubled are stored as entered and read
    back single: for values without space at either end and without line
    break, the file created from the doubled values gives back the values
    themselves.  (The credential of the creating run holds the doubled
    text as it was typed.) *)
Theorem doubled_percent_is_read_single (login pass host : string) :
  trimmed login -> trimmed pass -> trimmed host ->
  exists file,
    _create_config (escape login) (escape pass) (escape host)
    = Ok ({| username := escape login; password := escape pass;
             server_url := escape host |}, file)
    /\ read_config (Some file)
       = Ok {| username := login; password := pass; server_url := host |}.
Proof.
  intros Hu Hp Hs.
  exists (written (escape login) (escape pass) (escape host)).
  split; [apply create_config_escaped|].
  unfold read_config.
  rewrite (read_written_trimmed _ _ _ (trimmed_escape _ Hu)
             (trimmed_escape _ Hp) (trimmed_escape _ Hs)).
  cbn [mbind result_bind]. unfold getitem.
  change (optionxform "Username") with "username".
  change (optionxform "Password") with "password".
  change (optionxform "Server") with "server".
  cbn [dict_lookup String.eqb Ascii.eqb Bool.eqb].
  rewrite !before_get_escape. reflexivity.
Qed.

Lemma doubled_percent_is_read_single_witness :
  exists file,
    _create_config "bob" "100%%sure" "https://jira.example.com"
    = Ok ({| username := "bob"; password := "100%%sure";
             server_url := "https://jira.example.com" |}, file)
    /\ read_config (Some file)
       = Ok {| username := "bob"; password := "100%sure";
               server_url := "https://jira.example.com" |}.
Proof.
  apply (doubled_percent_is_read_single "bob" "100%sure"
           "https://jira.example.com"); repeat split; reflexivity.
Defined.

(** *** init_config *)

(** The witness of [init_config_creates_then_reads]: a first run without
    file, a second run with the file the first one left. *)
Lemma init_config_creates_then_reads_witness :
  exists file,
    init_config None "bob" "s3cret" "https://jira.example.com"
    = Ok ({| username := "bob"; password := "s3cret";
             server_url := "https://jira.example.com" |}, Some file)
    /\ forall login pass host,
        init_config (Some file) login pass host
        = Ok ({| username := "bob"; password := "s3cret";
                 server_url := "https://jira.example.com" |}, Some file).
Proof.
  apply (init_config_creates_then_reads "bob" "s3cret"
           "https://jira.example.com"); repeat split; reflexivity.
Defined.

End ConfigEdges.

(** ** What the store-based resolver hands out *)

Module HeapAliasing.
Import Heap.

Section Results.

Variable σ0 : list object.
Hypothesis σ0_closed : closed σ0.

(** One step of a run: the outcome of the computation in head position
    is known. *)
Ltac run H := rewrite H; cbv beta iota.

(** The cascading loop appends valid references only. *)
Lemma cascading_loop_appends_valid (parts : list string) (nest : ref) :
  valid σ0 nest ->
  exists r new,
    appends σ0 (cascading_loop parts nest) r new /\ Forall (valid σ0) new.
Proof.
  revert nest. induction parts as [|part rest IH]; intros nest Hnest.
  - exists (Ok tt), []. split; [|constructor].
    apply appends_nothing. reflexivity.
  - destruct (contains "|" part) eqn:Hpart.
    + destruct (get_reads σ0 σ0_closed nest "value" Hnest)
        as [[parent|e] [Hparent Hpv]].
      2:{ exists (Raise e), []. split; [|constructor].
          intros σ l items Hloc. exists σ.
          rewrite app_nil_r. split; [|exact Hloc].
          cbn [cascading_loop]. rewrite Hpart. unfold mbind, M_bind.
          rewrite (Hparent σ (proj1 Hloc)). reflexivity. }
      specialize (Hpv parent eq_refl).
      destruct (get_reads σ0 σ0_closed nest "child" Hnest)
        as [[child_option|e] [Hchild Hvalid]].
      2:{ exists (Raise e), [parent]. split; [|repeat constructor; exact Hpv].
          intros σ l items Hloc.
          destruct (append_local σ0 σ l items parent Hloc) as [σa [Happ Hloca]].
          exists σa. split; [|exact Hloca].
          cbn [cascading_loop]. rewrite Hpart. unfold mbind, M_bind.
          run (Hparent σ (proj1 Hloc)). run Happ.
          run (Hchild σa (proj1 Hloca)).
          reflexivity. }
      specialize (Hvalid child_option eq_refl).
      destruct (truthy_reads σ0 σ0_closed child_option Hvalid) as [[|] Htruthy].
      * destruct (get_reads σ0 σ0_closed child_option "value" Hvalid)
          as [[child|e] [Hvalue Hcv]].
        -- exists (Ok tt), [parent; child].
           split; [|repeat constructor; [exact Hpv | exact (Hcv child eq_refl)]].
           intros σ l items Hloc.
           destruct (append_local σ0 σ l items parent Hloc) as [σa [Happ Hloca]].
           destruct (append_local σ0 σa l _ child Hloca) as [σb [Happ' Hlocb]].
           exists σb. split.
           ++ cbn [cascading_loop]. rewrite Hpart. unfold mbind, M_bind.
              run (Hparent σ (proj1 Hloc)). run Happ.
              run (Hchild σa (proj1 Hloca)). run (Htruthy σa (proj1 Hloca)).
              run (Hvalue σa (proj1 Hloca)).
              exact Happ'.
           ++ rewrite <- app_assoc in Hlocb. exact Hlocb.
        -- exists (Raise e), [parent]. split; [|repeat constructor; exact Hpv].
           intros σ l items Hloc.
           destruct (append_local σ0 σ l items parent Hloc) as [σa [Happ Hloca]].
           exists σa. split; [|exact Hloca].
           cbn [cascading_loop]. rewrite Hpart. unfold mbind, M_bind.
           run (Hparent σ (proj1 Hloc)). run Happ.
           run (Hchild σa (proj1 Hloca)). run (Htruthy σa (proj1 Hloca)).
           run (Hvalue σa (proj1 Hloca)).
           reflexivity.
      * exists (Ok tt), [parent]. split; [|repeat constructor; exact Hpv].
        intros σ l items Hloc.
        destruct (append_local σ0 σ l items parent Hloc) as [σa [Happ Hloca]].
        exists σa. split; [|exact Hloca].
        cbn [cascading_loop]. rewrite Hpart. unfold mbind, M_bind.
        run (Hparent σ (proj1 Hloc)). run Happ. run (Hchild σa (proj1 Hloca)).
        run (Htruthy σa (proj1 Hloca)).
        reflexivity.
    + destruct (get_reads σ0 σ0_closed nest part Hnest)
        as [[nest'|e] [Hget Hvalid]].
      * destruct (IH nest' (Hvalid nest' eq_refl)) as [r [new [Hrest Hnew]]].
        exists r, new. split; [|exact Hnew]. intros σ l items Hloc.
        destruct (Hrest σ l items Hloc) as [σ' [Hrun Hloc']].
        exists σ'. split; [|exact Hloc'].
        cbn [cascading_loop]. rewrite Hpart. unfold mbind, M_bind.
        rewrite (Hget σ (proj1 Hloc)). exact Hrun.
      * exists (Raise e), []. split; [|constructor].
        intros σ l items Hloc. exists σ.
        rewrite app_nil_r. split; [|exact Hloc].
        cbn [cascading_loop]. rewrite Hpart. unfold mbind, M_bind.
        rewrite (Hget σ (proj1 Hloc)). reflexivity.
Qed.

Lemma cascading_result_valid (field_path : string) (issue v : ref)
    (σ' : list object) :
  valid σ0 issue ->
  _get_value_for_cascading_select_field field_path issue σ0 = (Ok v, σ') ->
  valid σ0 v.
Proof.
  intros Hissue. unfold _get_value_for_cascading_select_field.
  destruct (negb (contains "|" field_path)).
  { intros [= <- _]. exact I. }
  destruct (cascading_loop_appends_valid (split "." field_path) issue Hissue)
    as [r [new [Hloop Hnew]]].
  destruct (alloc_local σ0 [] σ0 (reflexivity σ0)) as [Halloc Hloc].
  destruct (Hloop _ _ _ Hloc) as [σ1 [Hrun Hloc1]]. simpl in Hloc1.
  unfold mbind, M_bind. run Halloc. run Hrun.
  destruct r as [[]|e]; [|discriminate].
  run (read_list_local σ0 σ1 _ new Hloc1).
  destruct new as [|a [|b [|c new]]].
  - intros [= <- _]. exact I.
  - intros [= <- _]. inversion Hnew; assumption.
  - rewrite (str_join_local σ0 "-" σ1 _ _ Hloc1).
    destruct (ref_strings [a; b]); [intros [= <- _]; exact I | discriminate].
  - intros [= <- _]. exact I.
Qed.

Lemma str_join_result (sep : string) (x v : ref) (σ σ' : list object) :
  str_join sep x σ = (Ok v, σ') -> exists s, v = RStr s.
Proof.
  unfold str_join, mbind, M_bind.
  destruct (read_list x σ) as [[items|e] σ1]; [|discriminate].
  destruct (ref_strings items); [|discriminate].
  intros [= <- _]. eexists. reflexivity.
Qed.

Lemma multiple_choice_result_string (field_path : string) (issue v : ref)
    (σ σ' : list object) :
  _get_value_for_multiple_choice_field field_path issue σ = (Ok v, σ') ->
  exists s, v = RStr s.
Proof.
  unfold _get_value_for_multiple_choice_field.
  destruct (negb (contains ".." field_path)).
  { intros [= <- _]. eexists. reflexivity. }
  unfold mbind, M_bind.
  destruct (alloc (OList []) σ) as [[values|e] σ1]; [|discriminate].
  destruct (multiple_choice_loop (split "." field_path) issue values σ1)
    as [[[values'|]|e] σ2]; [| |discriminate].
  - apply str_join_result.
  - intros [= <- _]. eexists. reflexivity.
Qed.

End Results.

(** X22.  What a call returns is a scalar or an object of the store the
    call was started in; for a cascading field with a single option it is
    the very object the document holds under [value], an alias, not a copy.
    The lists the call makes for itself are never handed out. *)
Theorem resolve_returns_no_private_object
    (σ σ' : list object) (field_path : string)
    (issue issue_field_values v : ref) :
  closed σ -> valid σ issue -> valid σ issue_field_values ->
  resolve field_path issue issue_field_values σ = (Ok v, σ') ->
  valid σ v.
Proof.
  intros Hclosed Hissue Hflat. unfold resolve.
  destruct (contains ".." field_path).
  - intros H. destruct (multiple_choice_result_string _ _ _ _ _ H) as [s ->].
    exact I.
  - destruct (contains "|" field_path).
    + apply cascading_result_valid; assumption.
    + destruct (get_reads σ Hclosed issue_field_values field_path Hflat)
        as [r [Hr Hv]].
      rewrite (Hr σ (reflexivity σ)). intros [= -> _]. apply Hv. reflexivity.
Qed.

Lemma resolve_returns_no_private_object_witness :
  valid sample_store (RObj 7).
Proof.
  apply (resolve_returns_no_private_object sample_store
           (sample_store ++ [OList [RObj 7]]) "fields.owner.|"
           (RObj 6) (RObj 9) (RObj 7)).
  - exact sample_store_closed.
  - simpl. lia.
  - simpl. lia.
  - reflexivity.
Defined.

End HeapAliasing.
